(** * Hackamail: the inbox core of [static/js/app.js]

    A shallow embedding of class [MailApp]: the three normalizers, the
    aggregate store with its statistics, the list view (category filter,
    in-place sort, text search over the rendered list), the detail and
    location extractors and the relative date formatter.

    JavaScript values are an inductive type; objects produced by
    [JSON.parse] are finite maps from property names to values.  What the
    browser supplies (random tokens, the clock, date parsing and printing,
    string conversion of non-strings) is gathered in a [Host] record, and
    the number of random tokens and clock readings consumed so far is
    threaded through a [World].  Strings are sequences of bytes, the
    UTF-8 form of the JavaScript string.

    The page is modelled where the browser's part in it can be written
    down: the list element of an item is the one its markup parses to for
    values that convert to strings and an id that needs no escaping, the
    sort is the engine's for valid dates, and letter case is folded on
    ASCII.  The predicates [printable], [attribute_safe], [plain],
    [ascii_only], [renders] and [listable] say so, and the properties of
    the rendered list are stated under them. *)

From Stdlib Require Import ZArith QArith Lia.
From stdpp Require Import base option list strings gmap pretty sorting.

#[local] Set Warnings "-register-all".
#[local] Open Scope Z_scope.

(** ** JavaScript values *)

(** A number is the exact rational value of the double ([JSON.parse] yields
    only finite numbers; both signed zeros are the rational [0]). *)
Inductive value : Type :=
| VUndefined
| VNull
| VBool (b : bool)
| VNum (q : Q)
| VStr (s : string)
| VArr (l : list value)
| VObj (m : gmap string value).

(** [ToBoolean]: what [if (v)], [!v], [a || b] and [a && b] test. *)
Definition truthy (v : value) : bool :=
  match v with
  | VUndefined | VNull => false
  | VBool b => b
  | VNum q => negb (Qnum q =? 0)
  | VStr s => negb (String.eqb s "")
  | VArr _ | VObj _ => true
  end.

(** [a || b] and [a && b] on values. *)
Definition js_or (a b : value) : value := if truthy a then a else b.
Definition js_and (a b : value) : value := if truthy a then b else a.

Infix "|||" := js_or (at level 50, left associativity).
Infix "&&&" := js_and (at level 40, left associativity).

(** Reading a property of [null] or [undefined] throws a [TypeError]. *)
Definition nullish (v : value) : bool :=
  match v with
  | VUndefined | VNull => true
  | _ => false
  end.

(** [v.k] for a value that is not nullish, for the property names this
    program reads (none of them is defined on a primitive wrapper or on
    [Array.prototype]): an object gives its own property, anything else
    gives [undefined].  Callers test [nullish] before the first read. *)
Definition get (v : value) (k : string) : value :=
  match v with
  | VObj m => default VUndefined (m !! k)
  | _ => VUndefined
  end.

(** [Array.isArray]. *)
Definition isArray (v : value) : bool :=
  match v with
  | VArr _ => true
  | _ => false
  end.

(** [v !== undefined]. *)
Definition is_defined (v : value) : bool :=
  match v with
  | VUndefined => false
  | _ => true
  end.

(** Conversion to a string ([String(v)], a template literal,
    [el.textContent = v]) and to a primitive ([new Date(v)]) calls the
    [toString] method of an object.  An object made by [JSON.parse] whose
    own property [toString] exists has no such method (a JSON value is
    never callable) and the conversion throws a [TypeError]; without the
    own property it inherits [Object.prototype.toString].  An array joins
    the conversions of its elements.  [printable v]: the conversion of [v]
    returns. *)
Fixpoint printable (v : value) : bool :=
  match v with
  | VObj m => match m !! "toString" with
              | Some _ => false
              | None => true
              end
  | VArr l => forallb printable l
  | _ => true
  end.

(** ** Completions: a call returns or throws *)

Inductive completion (A : Type) : Type :=
| Return (a : A)
| Throw (reason : string).
Arguments Return {A} a.
Arguments Throw {A} reason.

Definition cbind {A B} (c : completion A) (k : A -> completion B) : completion B :=
  match c with
  | Return a => k a
  | Throw e => Throw e
  end.

Definition cmap {A B} (f : A -> B) (c : completion A) : completion B :=
  cbind c (fun a => Return (f a)).

(** ** The host environment *)

Record Host : Type := {
  (** the [n]-th result of [Math.random().toString(36)] *)
  random_token : nat -> string;
  (** the [n]-th reading of the clock by [new Date()], in milliseconds *)
  clock_ms : nat -> Z;
  (** [Date.prototype.toISOString] *)
  toISOString : Z -> string;
  (** [new Date(s)] for a string: its time value, [None] for an invalid date *)
  Date_parse : string -> option Z;
  (** [new Date(v)] for a value that is neither a string nor a number *)
  Date_coerce : value -> option Z;
  (** [toLocaleDateString('en-US', {month: 'short', day: 'numeric'})] *)
  toLocaleDateString : Z -> string;
  (** [String(v)] for a value that is not a string *)
  String_of : value -> string
}.

(** How many random tokens and clock readings have been consumed. *)
Record World : Type := {
  random_calls : nat;
  clock_calls : nat
}.

Definition use_random (w : World) : World :=
  {| random_calls := S (random_calls w); clock_calls := clock_calls w |}.

Definition use_clock (w : World) : World :=
  {| random_calls := random_calls w; clock_calls := S (clock_calls w) |}.

(** ** Normalized items *)

Inductive ItemType : Type := TMail | TLetter | TPackage.

Definition type_name (t : ItemType) : string :=
  match t with
  | TMail => "mail"
  | TLetter => "letter"
  | TPackage => "package"
  end.

Record Item : Type := {
  id : value;
  type : ItemType;
  from : value;
  subject : value;
  preview : value;
  date : value;
  unread : value;
  originalData : value
}.

(** [item.id || Math.random().toString(36)] *)
Definition id_or_random (h : Host) (item : value) (w : World) : value * World :=
  if truthy (get item "id") then (get item "id", w)
  else (VStr (random_token h (random_calls w)), use_random w).

(** [item.date || item.<alt> || new Date().toISOString()] *)
Definition date_or_now (h : Host) (alt : string) (item : value) (w : World)
  : value * World :=
  if truthy (get item "date" ||| get item alt) then (get item "date" ||| get item alt, w)
  else (VStr (toISOString h (clock_ms h (clock_calls w))), use_clock w).

(** [item.unread !== undefined ? item.unread : true] *)
Definition unread_or_true (item : value) : value :=
  if is_defined (get item "unread") then get item "unread" else VBool true.

(** The arrow function of [normalizeMailData]. *)
Definition normalizeMailItem (h : Host) (item : value) (w : World)
  : completion Item * World :=
  if nullish item then (Throw "TypeError", w) else
  let '(i, w1) := id_or_random h item w in
  let '(d, w2) := date_or_now h "created_at" item w1 in
  (Return {| id := i;
             type := TMail;
             from := get item "from" ||| get item "sender" ||| VStr "Unknown";
             subject := get item "subject" ||| VStr "No Subject";
             preview := get item "preview" ||| get item "body" ||| VStr "";
             date := d;
             unread := unread_or_true item;
             originalData := item |}, w2).

(** The arrow function of [normalizeLettersData]. *)
Definition normalizeLetterItem (h : Host) (item : value) (w : World)
  : completion Item * World :=
  if nullish item then (Throw "TypeError", w) else
  let '(i, w1) := id_or_random h item w in
  let '(d, w2) := date_or_now h "received_at" item w1 in
  (Return {| id := i;
             type := TLetter;
             from := get item "from" ||| get item "sender" ||| VStr "Unknown";
             subject := get item "subject" ||| get item "title" ||| VStr "Letter";
             preview := get item "preview" ||| get item "description" ||| VStr "";
             date := d;
             unread := unread_or_true item;
             originalData := item |}, w2).

(** The arrow function of [normalizePackagesData]. *)
Definition normalizePackageItem (h : Host) (item : value) (w : World)
  : completion Item * World :=
  if nullish item then (Throw "TypeError", w) else
  let '(i, w1) := id_or_random h item w in
  let '(d, w2) := date_or_now h "received_at" item w1 in
  (Return {| id := i;
             type := TPackage;
             from := get item "from" ||| get item "sender" ||| get item "carrier"
                     ||| VStr "Unknown";
             subject := get item "subject" ||| get item "tracking_number"
                        ||| VStr "Package";
             preview := get item "preview" ||| get item "description"
                        ||| get item "status" ||| VStr "";
             date := d;
             unread := unread_or_true item;
             originalData := item |}, w2).

(** [items.map(f)]: left to right; the first throw ends the call, and the
    random tokens and clock readings consumed up to it stay consumed. *)
Fixpoint array_map {A} (f : value -> World -> completion A * World)
    (items : list value) (w : World) : completion (list A) * World :=
  match items with
  | [] => (Return [], w)
  | x :: rest =>
      match f x w with
      | (Throw e, w1) => (Throw e, w1)
      | (Return a, w1) =>
          match array_map f rest w1 with
          | (Throw e, w2) => (Throw e, w2)
          | (Return l, w2) => (Return (a :: l), w2)
          end
      end
  end.

(** [data.<key> || data.data || data] *)
Definition unwrap (key : string) (data : value) : value :=
  get data key ||| get data "data" ||| data.

Definition normalizeMailData (h : Host) (data : value) (w : World)
  : completion (list Item) * World :=
  if negb (truthy data) then (Return [], w) else
  match unwrap "mail" data with
  | VArr items => array_map (normalizeMailItem h) items w
  | _ => (Return [], w)
  end.

Definition normalizeLettersData (h : Host) (data : value) (w : World)
  : completion (list Item) * World :=
  if negb (truthy data) then (Return [], w) else
  match unwrap "letters" data with
  | VArr items => array_map (normalizeLetterItem h) items w
  | _ => (Return [], w)
  end.

Definition normalizePackagesData (h : Host) (data : value) (w : World)
  : completion (list Item) * World :=
  if negb (truthy data) then (Return [], w) else
  match unwrap "packages" data with
  | VArr items => array_map (normalizePackageItem h) items w
  | _ => (Return [], w)
  end.

(** ** Detail extraction *)

(** [if (data.<key>) details.push({label, value: data.<key>})] *)
Definition push_if (data : value) (key label : string)
    (details : list (string * value)) : list (string * value) :=
  if truthy (get data key) then details ++ [(label, get data key)] else details.

Definition extractDetails (item : Item) : completion (list (string * value)) :=
  let data := originalData item in
  if nullish data then Throw "TypeError" else
  let details := [] in
  let details := push_if data "id" "ID" details in
  let details := push_if data "status" "Status" details in
  let details := push_if data "tracking_number" "Tracking" details in
  let details := push_if data "carrier" "Carrier" details in
  let details := push_if data "weight" "Weight" details in
  let details := push_if data "dimensions" "Dimensions" details in
  let details := push_if data "sender_address" "Sender Address" details in
  let details := push_if data "recipient_address" "Recipient" details in
  let details := push_if data "estimated_delivery" "Est. Delivery" details in
  Return details.

Record LocationPoint : Type := {
  lat : value;
  lng : value;
  label : value
}.

(** The three blocks of [extractLocationData], each either returning a
    point or falling through to the next statement. *)
Definition location_shape (data : value) : option LocationPoint :=
  if truthy (get data "location") then
    if truthy (get (get data "location") "lat" &&& get (get data "location") "lng") then
      Some {| lat := get (get data "location") "lat";
              lng := get (get data "location") "lng";
              label := get (get data "location") "label" ||| VStr "Location" |}
    else None
  else None.

Definition latitude_shape (data : value) : option LocationPoint :=
  if truthy (get data "latitude" &&& get data "longitude") then
    Some {| lat := get data "latitude";
            lng := get data "longitude";
            label := VStr "Location" |}
  else None.

Definition tracking_shape (data : value) : option LocationPoint :=
  if truthy (get data "tracking_location") then
    Some {| lat := get (get data "tracking_location") "lat";
            lng := get (get data "tracking_location") "lng";
            label := VStr "Tracking Location" |}
  else None.

Definition extractLocationData (item : Item) : completion (option LocationPoint) :=
  let data := originalData item in
  if nullish data then Throw "TypeError" else
  match location_shape data with
  | Some p => Return (Some p)
  | None =>
      match latitude_shape data with
      | Some p => Return (Some p)
      | None =>
          match tracking_shape data with
          | Some p => Return (Some p)
          | None => Return None
          end
      end
  end.

(** ** Dates *)

(** [new Date(v)]: the time value in milliseconds, [None] for an invalid
    date.  A number is truncated and clipped to the range of time values.
    Anything that is neither a string nor a number is first converted to a
    primitive; [Date_coerce] stands for the conversions that return, and
    the properties stated of dates below take the value to be [printable],
    since the conversion of a value that is not throws. *)
Definition newDate (h : Host) (v : value) : option Z :=
  match v with
  | VStr s => Date_parse h s
  | VNum q =>
      let t := Z.quot (Qnum q) (Zpos (Qden q)) in
      if Z.abs t <=? 8640000000000000 then Some t else None
  | _ => Date_coerce h v
  end.

(** The body of [formatDate] once [now] has been read.  With an invalid
    date every difference is [NaN], every comparison fails and
    [toLocaleDateString] prints the invalid date. *)
Definition formatDate_at (h : Host) (now : Z) (dateString : value) : string :=
  match newDate h dateString with
  | None => "Invalid Date"
  | Some t =>
      let diffMs := now - t in
      let diffMins := diffMs / 60000 in
      let diffHours := diffMs / 3600000 in
      let diffDays := diffMs / 86400000 in
      if diffMins <? 1 then "now"
      else if diffMins <? 60 then pretty diffMins +:+ "m"
      else if diffHours <? 24 then pretty diffHours +:+ "h"
      else if diffDays <? 7 then pretty diffDays +:+ "d"
      else toLocaleDateString h t
  end.

Definition formatDate (h : Host) (dateString : value) (w : World) : string * World :=
  (formatDate_at h (clock_ms h (clock_calls w)) dateString, use_clock w).

(** ** The rendered list *)

(** [String(v)], and the text [escapeHtml(v)] contributes to the page:
    the text of [v || ''].  [String_of] stands for the conversions that
    return; the conversion of a value that is not [printable] throws, and
    the properties stated of rendered values below take them to be
    [printable]. *)
Definition toText (h : Host) (v : value) : string :=
  match v with
  | VStr s => s
  | _ => String_of h v
  end.

Definition escaped_text (h : Host) (v : value) : string :=
  toText h (v ||| VStr "").

(** [type.charAt(0).toUpperCase() + type.slice(1)] *)
Definition badgeText (t : ItemType) : string :=
  match t with
  | TMail => "Mail"
  | TLetter => "Letter"
  | TPackage => "Package"
  end.

Fixpoint spaces (n : nat) : string :=
  match n with
  | O => ""
  | S n' => String (Ascii.ascii_of_nat 32) (spaces n')
  end.

(** A line break of the template followed by its indentation. *)
Definition indent (n : nat) : string :=
  String (Ascii.ascii_of_nat 10) (spaces n).

(** One [li.mail-item] of the list: its [data-id] attribute, its [unread]
    class, its [textContent] and whether [style.display] is [''].
    [rendered_from] remembers the item it was made from. *)
Record MailItemEl : Type := {
  data_id : string;
  unread_class : bool;
  textContent : string;
  displayed : bool;
  rendered_from : Item
}.

(** [createMailItemHTML], read as the element the markup parses to.  The
    [id] goes into the [data-id] attribute as it is, so the element is
    this one when the text of the [id] is [attribute_safe] (below); the
    three escaped texts come back from the parser as they were, except
    that it drops NUL and turns a carriage return into a line feed, so
    [textContent] is this one for [plain] texts. *)
Definition createMailItemHTML (h : Host) (item : Item) (w : World)
  : MailItemEl * World :=
  let '(d, w1) := formatDate h (date item) w in
  ({| data_id := toText h (id item);
      unread_class := truthy (unread item);
      textContent :=
        indent 16 +:+ indent 20 +:+ indent 24 +:+ escaped_text h (from item)
        +:+ indent 24 +:+ badgeText (type item) +:+ indent 20
        +:+ indent 20 +:+ d +:+ indent 16
        +:+ indent 16 +:+ escaped_text h (subject item)
        +:+ indent 16 +:+ escaped_text h (preview item) +:+ indent 12;
      displayed := true;
      rendered_from := item |}, w1).

(** [allItems.map(item => this.createMailItemHTML(item))] *)
Fixpoint render_items (h : Host) (items : list Item) (w : World)
  : list MailItemEl * World :=
  match items with
  | [] => ([], w)
  | x :: rest =>
      let '(el, w1) := createMailItemHTML h x w in
      let '(els, w2) := render_items h rest w1 in
      (el :: els, w2)
  end.

(** [String.prototype.toLowerCase] on ASCII letters; other bytes are kept.
    This is the method itself on strings that are [ascii_only] (below);
    outside ASCII the method follows the Unicode case mappings. *)
Definition lower_ascii (c : Ascii.ascii) : Ascii.ascii :=
  let n := Ascii.nat_of_ascii c in
  if ((65 <=? n) && (n <=? 90))%nat then Ascii.ascii_of_nat (n + 32) else c.

Fixpoint toLowerCase (s : string) : string :=
  match s with
  | EmptyString => EmptyString
  | String c s' => String (lower_ascii c) (toLowerCase s')
  end.

(** [s.includes(sub)] *)
Fixpoint includes (s sub : string) : bool :=
  if String.prefix sub s then true
  else match s with
       | EmptyString => false
       | String _ s' => includes s' sub
       end.

(** ** Sorting: [allItems.sort((a, b) => new Date(b.date) - new Date(a.date))] *)

(** The comparator; a [NaN] result counts as [+0]. *)
Definition compare_newest (h : Host) (a b : Item) : Z :=
  match newDate h (date b), newDate h (date a) with
  | Some tb, Some ta => tb - ta
  | _, _ => 0
  end.

(** [Array.prototype.sort] is stable, so for a consistent comparator its
    result is the one of a stable insertion sort: [x], which stood before
    every element of [l], moves behind [y] only when the comparator says
    so strictly.  The comparator is consistent when every date is valid.
    With an invalid date among valid ones it is not, and the order is then
    the engine's own: it is a permutation of the array, and no more is
    used of it below unless the dates are taken to be valid. *)
Fixpoint insert_sorted (h : Host) (x : Item) (l : list Item) : list Item :=
  match l with
  | [] => [x]
  | y :: l' =>
      if 0 <? compare_newest h x y then y :: insert_sorted h x l'
      else x :: y :: l'
  end.

Definition js_sort (h : Host) (l : list Item) : list Item :=
  foldr (insert_sorted h) [] l.

(** ** The application state *)

Record MailData : Type := {
  mail : list Item;
  letters : list Item;
  packages : list Item
}.

(** The numbers written into the statistics cards and category counters. *)
Record StatsView : Type := {
  totalMail : nat;
  totalLetters : nat;
  totalPackages : nat;
  totalAll : nat;
  count_all : nat;
  count_mail : nat;
  count_letters : nat;
  count_packages : nat;
  count_unread : nat
}.

(** The content of [#mailList]. *)
Inductive MailList : Type :=
| ListStatic
| ListLoading
| ListError (message : string)
| ListEmpty
| ListItems (els : list MailItemEl).

(** The fields of [MailApp] ([mailData.mail], [mailData.letters],
    [mailData.packages] and [allMailItems] are four distinct arrays), the
    parts of the page it writes, and the world.  [errors_shown] and
    [console] record the calls of [showError] and of [console.log] /
    [console.error] (messages without their leading pictograms); the map
    handle [currentMap] is left out. *)
Record MailApp : Type := {
  currentFilter : string;
  apiKey : string;
  mailData : MailData;
  allMailItems : list Item;
  mailList : MailList;
  stats : StatsView;
  searchBox : string;
  activeCategory : string;
  refreshBtn_loading : bool;
  errors_shown : list string;
  console : list string;
  world : World
}.

Definition set_currentFilter (c : string) (st : MailApp) : MailApp :=
  {| currentFilter := c; apiKey := apiKey st; mailData := mailData st;
     allMailItems := allMailItems st; mailList := mailList st; stats := stats st;
     searchBox := searchBox st; activeCategory := activeCategory st;
     refreshBtn_loading := refreshBtn_loading st; errors_shown := errors_shown st;
     console := console st; world := world st |}.

Definition set_mailData (d : MailData) (st : MailApp) : MailApp :=
  {| currentFilter := currentFilter st; apiKey := apiKey st; mailData := d;
     allMailItems := allMailItems st; mailList := mailList st; stats := stats st;
     searchBox := searchBox st; activeCategory := activeCategory st;
     refreshBtn_loading := refreshBtn_loading st; errors_shown := errors_shown st;
     console := console st; world := world st |}.

Definition set_allMailItems (l : list Item) (st : MailApp) : MailApp :=
  {| currentFilter := currentFilter st; apiKey := apiKey st; mailData := mailData st;
     allMailItems := l; mailList := mailList st; stats := stats st;
     searchBox := searchBox st; activeCategory := activeCategory st;
     refreshBtn_loading := refreshBtn_loading st; errors_shown := errors_shown st;
     console := console st; world := world st |}.

Definition set_mailList (m : MailList) (st : MailApp) : MailApp :=
  {| currentFilter := currentFilter st; apiKey := apiKey st; mailData := mailData st;
     allMailItems := allMailItems st; mailList := m; stats := stats st;
     searchBox := searchBox st; activeCategory := activeCategory st;
     refreshBtn_loading := refreshBtn_loading st; errors_shown := errors_shown st;
     console := console st; world := world st |}.

Definition set_stats (s : StatsView) (st : MailApp) : MailApp :=
  {| currentFilter := currentFilter st; apiKey := apiKey st; mailData := mailData st;
     allMailItems := allMailItems st; mailList := mailList st; stats := s;
     searchBox := searchBox st; activeCategory := activeCategory st;
     refreshBtn_loading := refreshBtn_loading st; errors_shown := errors_shown st;
     console := console st; world := world st |}.

Definition set_searchBox (q : string) (st : MailApp) : MailApp :=
  {| currentFilter := currentFilter st; apiKey := apiKey st; mailData := mailData st;
     allMailItems := allMailItems st; mailList := mailList st; stats := stats st;
     searchBox := q; activeCategory := activeCategory st;
     refreshBtn_loading := refreshBtn_loading st; errors_shown := errors_shown st;
     console := console st; world := world st |}.

Definition set_activeCategory (c : string) (st : MailApp) : MailApp :=
  {| currentFilter := currentFilter st; apiKey := apiKey st; mailData := mailData st;
     allMailItems := allMailItems st; mailList := mailList st; stats := stats st;
     searchBox := searchBox st; activeCategory := c;
     refreshBtn_loading := refreshBtn_loading st; errors_shown := errors_shown st;
     console := console st; world := world st |}.

Definition set_refreshBtn_loading (b : bool) (st : MailApp) : MailApp :=
  {| currentFilter := currentFilter st; apiKey := apiKey st; mailData := mailData st;
     allMailItems := allMailItems st; mailList := mailList st; stats := stats st;
     searchBox := searchBox st; activeCategory := activeCategory st;
     refreshBtn_loading := b; errors_shown := errors_shown st;
     console := console st; world := world st |}.

Definition log_error_shown (msg : string) (st : MailApp) : MailApp :=
  {| currentFilter := currentFilter st; apiKey := apiKey st; mailData := mailData st;
     allMailItems := allMailItems st; mailList := mailList st; stats := stats st;
     searchBox := searchBox st; activeCategory := activeCategory st;
     refreshBtn_loading := refreshBtn_loading st;
     errors_shown := errors_shown st ++ [msg];
     console := console st; world := world st |}.

Definition log_console (msg : string) (st : MailApp) : MailApp :=
  {| currentFilter := currentFilter st; apiKey := apiKey st; mailData := mailData st;
     allMailItems := allMailItems st; mailList := mailList st; stats := stats st;
     searchBox := searchBox st; activeCategory := activeCategory st;
     refreshBtn_loading := refreshBtn_loading st; errors_shown := errors_shown st;
     console := console st ++ [msg]; world := world st |}.

Definition set_world (w : World) (st : MailApp) : MailApp :=
  {| currentFilter := currentFilter st; apiKey := apiKey st; mailData := mailData st;
     allMailItems := allMailItems st; mailList := mailList st; stats := stats st;
     searchBox := searchBox st; activeCategory := activeCategory st;
     refreshBtn_loading := refreshBtn_loading st; errors_shown := errors_shown st;
     console := console st; world := w |}.

(** The state after the constructor and [loadApiKeyFromStorage], on a fresh
    page; [savedKey] is the stored key, [""] when there is none. *)
Definition new_MailApp (savedKey : string) (w : World) : MailApp :=
  {| currentFilter := "all"; apiKey := savedKey;
     mailData := {| mail := []; letters := []; packages := [] |};
     allMailItems := [];
     mailList := ListStatic;
     stats := {| totalMail := 0; totalLetters := 0; totalPackages := 0; totalAll := 0;
                 count_all := 0; count_mail := 0; count_letters := 0;
                 count_packages := 0; count_unread := 0 |};
     searchBox := ""; activeCategory := "all"; refreshBtn_loading := false;
     errors_shown := []; console := []; world := w |}.

(** ** Page helpers *)

Definition showLoading (st : MailApp) : MailApp :=
  set_refreshBtn_loading true (set_mailList ListLoading st).

Definition showError (message : string) (st : MailApp) : MailApp :=
  set_refreshBtn_loading false
    (log_error_shown message (set_mailList (ListError message) st)).

Definition showNotification (message : string) (st : MailApp) : MailApp :=
  set_refreshBtn_loading false (log_console message st).

(** ** Statistics *)

(** [item => item.unread] *)
Definition is_unread (item : Item) : bool := truthy (unread item).

Definition updateStats (st : MailApp) : MailApp :=
  let totalMail := length (mail (mailData st)) in
  let totalLetters := length (letters (mailData st)) in
  let totalPackages := length (packages (mailData st)) in
  let total := (totalMail + totalLetters + totalPackages)%nat in
  let unreadCount := length (List.filter is_unread (allMailItems st)) in
  set_stats {| totalMail := totalMail; totalLetters := totalLetters;
               totalPackages := totalPackages; totalAll := total;
               count_all := total; count_mail := totalMail;
               count_letters := totalLetters; count_packages := totalPackages;
               count_unread := unreadCount |} st.

(** ** The list view *)

(** The tail of [displayMail]: the empty state or the rendered items. *)
Definition show_items (h : Host) (allItems : list Item) (st : MailApp) : MailApp :=
  match allItems with
  | [] => set_mailList ListEmpty st
  | _ =>
      let '(els, w) := render_items h allItems (world st) in
      set_world w (set_mailList (ListItems els) st)
  end.

(** [displayMail]: [allItems] is the stored array itself except under the
    [unread] filter, where [filter] makes a new one; [sort] then reorders
    the array it is given. *)
Definition displayMail (h : Host) (st : MailApp) : MailApp :=
  if String.eqb (currentFilter st) "mail" then
    let allItems := js_sort h (mail (mailData st)) in
    show_items h allItems
      (set_mailData {| mail := allItems; letters := letters (mailData st);
                       packages := packages (mailData st) |} st)
  else if String.eqb (currentFilter st) "letters" then
    let allItems := js_sort h (letters (mailData st)) in
    show_items h allItems
      (set_mailData {| mail := mail (mailData st); letters := allItems;
                       packages := packages (mailData st) |} st)
  else if String.eqb (currentFilter st) "packages" then
    let allItems := js_sort h (packages (mailData st)) in
    show_items h allItems
      (set_mailData {| mail := mail (mailData st); letters := letters (mailData st);
                       packages := allItems |} st)
  else if String.eqb (currentFilter st) "unread" then
    let allItems := js_sort h (List.filter is_unread (allMailItems st)) in
    show_items h allItems st
  else
    let allItems := js_sort h (allMailItems st) in
    show_items h allItems (set_allMailItems allItems st).

(** [filterMail(category)] as the category listener calls it, with the
    [data-category] of the element that was clicked: the element the call
    marks active is there.  (For a category no element of the page carries
    the call throws before it reaches [displayMail].) *)
Definition filterMail (h : Host) (category : string) (st : MailApp) : MailApp :=
  displayMail h (set_activeCategory category (set_currentFilter category st)).

(** [item.style.display = text.includes(searchLower) ? '' : 'none'] *)
Definition search_el (searchLower : string) (el : MailItemEl) : MailItemEl :=
  {| data_id := data_id el; unread_class := unread_class el;
     textContent := textContent el;
     displayed := includes (toLowerCase (textContent el)) searchLower;
     rendered_from := rendered_from el |}.

Definition searchMail (query : string) (st : MailApp) : MailApp :=
  match mailList st with
  | ListItems els =>
      set_mailList (ListItems (map (search_el (toLowerCase query)) els)) st
  | _ => st
  end.

(** The two listeners of [setupEventListeners] that drive the view: a
    click on a category, and an input event of the search box (whose value
    the browser has already updated). *)
Inductive ViewEvent : Type :=
| CategoryClick (category : string)
| SearchInput (text : string).

Definition handle (h : Host) (e : ViewEvent) (st : MailApp) : MailApp :=
  match e with
  | CategoryClick category => filterMail h category st
  | SearchInput text => searchMail text (set_searchBox text st)
  end.

Definition handle_all (h : Host) (es : list ViewEvent) (st : MailApp) : MailApp :=
  foldl (fun s e => handle h e s) st es.

(** The items of the list elements that are on display. *)
Definition visible (st : MailApp) : list Item :=
  match mailList st with
  | ListItems els => map rendered_from (List.filter displayed els)
  | _ => []
  end.

(** ** Loading *)

(** What one [fetch] gave: a rejected promise, or a response with its
    [ok] flag and its body as [response.json()] parses it ([None]: not
    valid JSON). *)
Inductive FetchResult : Type :=
| NetworkError
| Response (ok : bool) (body : option value).

(** A fetch that fails, returns a non-success status, or whose body is
    not valid JSON. *)
Definition fetch_failed (r : FetchResult) : bool :=
  match r with
  | NetworkError => true
  | Response _ None => true
  | Response ok (Some _) => negb ok
  end.

(** The [try] block up to the three normalizers: [Promise.all], the three
    [json()] calls, the status check, and the object literal of the three
    normalized arrays. *)
Definition fetch_and_normalize (h : Host) (rm rl rp : FetchResult) (w : World)
  : completion MailData * World :=
  match rm, rl, rp with
  | Response okm bm, Response okl bl, Response okp bp =>
      match bm, bl, bp with
      | Some mailData, Some lettersData, Some packagesData =>
          if negb okm || negb okl || negb okp then (Throw "Error", w) else
          match normalizeMailData h mailData w with
          | (Throw e, w1) => (Throw e, w1)
          | (Return ms, w1) =>
              match normalizeLettersData h lettersData w1 with
              | (Throw e, w2) => (Throw e, w2)
              | (Return ls, w2) =>
                  match normalizePackagesData h packagesData w2 with
                  | (Throw e, w3) => (Throw e, w3)
                  | (Return ps, w3) =>
                      (Return {| mail := ms; letters := ls; packages := ps |}, w3)
                  end
              end
          end
      | _, _, _ => (Throw "SyntaxError", w)
      end
  | _, _, _ => (Throw "TypeError", w)
  end.

Definition loadAllMail (h : Host) (rm rl rp : FetchResult) (st : MailApp) : MailApp :=
  if String.eqb (apiKey st) "" then
    showError "Please enter and save your API key first" st
  else
    let st := showLoading st in
    match fetch_and_normalize h rm rl rp (world st) with
    | (Return d, w) =>
        let st := set_world w st in
        let st := set_mailData d st in
        let st := set_allMailItems (mail d ++ letters d ++ packages d) st in
        let st := updateStats st in
        let st := displayMail h st in
        showNotification "Mail loaded successfully!" st
    | (Throw e, w) =>
        let st := set_world w st in
        let st := log_console "Error loading mail:" st in
        showError "Failed to load mail. Please check your API key and try again." st
    end.

(** ** The specification's reading of the fallback chains, the field list
       and the view *)

(** "Present and non-empty/non-null": the field exists, is not [null] and
    is not the empty string. *)
Definition spec_usable (v : value) : bool :=
  match v with
  | VUndefined | VNull => false
  | VStr s => negb (String.eqb s "")
  | _ => true
  end.

(** "The first raw field present and non-empty/non-null wins", with the
    chain's default at its end. *)
Fixpoint spec_fallback (candidates : list value) (dflt : value) : value :=
  match candidates with
  | [] => dflt
  | v :: rest => if spec_usable v then v else spec_fallback rest dflt
  end.

(** The fixed vocabulary of the detail grid: raw key and label, in order. *)
Definition detail_vocabulary : list (string * string) :=
  [("id", "ID"); ("status", "Status"); ("tracking_number", "Tracking");
   ("carrier", "Carrier"); ("weight", "Weight"); ("dimensions", "Dimensions");
   ("sender_address", "Sender Address"); ("recipient_address", "Recipient");
   ("estimated_delivery", "Est. Delivery")].

(** The vocabulary entries whose raw value passes [keep], each with its
    value, in vocabulary order. *)
Definition select_fields (keep : value -> bool) (data : value)
  : list (string * value) :=
  omap (fun kl => if keep (get data kl.1) then Some (kl.2, get data kl.1) else None)
       detail_vocabulary.

(** "Included if and only if present and non-empty in the raw record". *)
Definition spec_extractFields (item : Item) : list (string * value) :=
  select_fields spec_usable (originalData item).

(** A number equal to zero. *)
Definition is_zero (v : value) : bool :=
  match v with
  | VNum q => Qnum q =? 0
  | _ => false
  end.

(** ** A sample host and sample records *)

(** A host whose [n]-th random token is ["r<n>"], whose clock stands at
    5000 ms, and which knows no string dates. *)
Definition sample_host : Host :=
  {| random_token := fun n => "r" +:+ pretty n;
     clock_ms := fun _ => 5000;
     toISOString := fun t => pretty t;
     Date_parse := fun _ => None;
     Date_coerce := fun _ => None;
     toLocaleDateString := fun _ => "Jan 1";
     String_of := fun _ => "" |}.

(** A host like [sample_host] whose clock advances by one second at each
    reading. *)
Definition ticking_host : Host :=
  {| random_token := fun n => "r" +:+ pretty n;
     clock_ms := fun n => 5000 + 1000 * Z.of_nat n;
     toISOString := fun t => pretty t;
     Date_parse := fun _ => None;
     Date_coerce := fun _ => None;
     toLocaleDateString := fun _ => "Jan 1";
     String_of := fun _ => "" |}.

Definition world0 : World := {| random_calls := 0; clock_calls := 0 |}.

Definition num (z : Z) : value := VNum (inject_Z z).

(** [{id: k, from: f, subject: s, date: t}] *)
Definition raw_mail (k f s : string) (t : Z) : value :=
  VObj (<["id" := VStr k]> (<["from" := VStr f]> (<["subject" := VStr s]>
       (<["date" := num t]> ∅)))).

(** The item [normalizeMailData] makes of [raw_mail k f s t]. *)
Definition mail_item (k f s : string) (t : Z) : Item :=
  {| id := VStr k; type := TMail; from := VStr f; subject := VStr s;
     preview := VStr ""; date := num t; unread := VBool true;
     originalData := raw_mail k f s t |}.

(** The item [normalizePackagesData] makes of [{id: k, date: t} ∪ extra]. *)
Definition raw_package (k : string) (t : Z) (extra : gmap string value) : value :=
  VObj (<["id" := VStr k]> (<["date" := num t]> extra)).

(** The item made of the package record [{id: k, date: t} ∪ extra] when
    nothing else is given. *)
Definition package_item (k : string) (t : Z) (extra : gmap string value) : Item :=
  {| id := VStr k; type := TPackage; from := VStr "Unknown";
     subject := VStr "Package"; preview := VStr ""; date := num t;
     unread := VBool true; originalData := raw_package k t extra |}.

Definition ok_json (v : value) : FetchResult := Response true (Some v).

(** Step 1 of the specified view: the base sequence of a filter. *)
Definition spec_base (st : MailApp) (filter : string) : list Item :=
  if String.eqb filter "mail" then mail (mailData st)
  else if String.eqb filter "letters" then letters (mailData st)
  else if String.eqb filter "packages" then packages (mailData st)
  else if String.eqb filter "unread" then List.filter is_unread (allMailItems st)
  else allMailItems st.

(** "The combined rendered text (from, subject, preview, category label)". *)
Definition spec_rendered_text (h : Host) (item : Item) : string :=
  escaped_text h (from item) +:+ " " +:+ escaped_text h (subject item) +:+ " "
  +:+ escaped_text h (preview item) +:+ " " +:+ badgeText (type item).

(** Steps 1 to 3: base sequence, newest first, then the items whose text
    contains the search text, case-insensitively. *)
Definition spec_visible (h : Host) (st : MailApp) (filter searchText : string)
  : list Item :=
  let sorted := js_sort h (spec_base st filter) in
  if String.eqb searchText "" then sorted
  else List.filter
         (fun item => includes (toLowerCase (spec_rendered_text h item))
                               (toLowerCase searchText))
         sorted.

(** The list elements, hidden or not. *)
Definition elements (st : MailApp) : list MailItemEl :=
  match mailList st with
  | ListItems els => els
  | _ => []
  end.

(** The fields of an item that are neither its [id] nor its [date]. *)
Definition fields_from_record (it : Item)
  : ItemType * value * value * value * value * value :=
  (type it, from it, subject it, preview it, unread it, originalData it).

(** A record that carries a truthy [id] and a truthy [date] or alternate
    date field [alt]. *)
Definition id_and_date_given (alt : string) (item : value) : bool :=
  truthy (get item "id") && truthy (get item "date" ||| get item alt).

(** Every record of the payload, unwrapped from [key], does. *)
Definition ids_and_dates_given (key alt : string) (data : value) : bool :=
  match unwrap key data with
  | VArr items => forallb (id_and_date_given alt) items
  | _ => true
  end.

(** [item.unread === true] *)
Definition unread_is_true (item : Item) : bool :=
  match unread item with
  | VBool true => true
  | _ => false
  end.

(** A mail payload of two records, the older one first, and the state
    after loading it (with empty letters and packages) into a fresh
    application whose stored key is ["key"]. *)
Definition two_mails : value :=
  VArr [raw_mail "a" "Ann" "alpha" 1000; raw_mail "b" "Bob" "beta" 2000].

Definition loaded_two_mails : MailApp :=
  loadAllMail sample_host (ok_json two_mails) (ok_json (VArr [])) (ok_json (VArr []))
    (new_MailApp "key" world0).

(** [a] may stand before [b] in a list sorted newest first. *)
Definition not_older (h : Host) (a b : Item) : Prop := compare_newest h a b <= 0.

(** The item's date is a valid one. *)
Definition dated (h : Host) (it : Item) : Prop := is_Some (newDate h (date it)).

(** The first truthy candidate, else the default: what a chain of [||]
    computes. *)
Fixpoint first_truthy (candidates : list value) (dflt : value) : value :=
  match candidates with
  | [] => dflt
  | v :: rest => if truthy v then v else first_truthy rest dflt
  end.

(** The package chains as the code resolves them: each field is the first
    truthy candidate of its chain, else the chain's default. *)
Definition package_chains (raw : value) (it : Item) : Prop :=
  from it = first_truthy [get raw "from"; get raw "sender"; get raw "carrier"]
                         (VStr "Unknown") /\
  subject it = first_truthy [get raw "subject"; get raw "tracking_number"]
                            (VStr "Package") /\
  preview it = first_truthy [get raw "preview"; get raw "description"; get raw "status"]
                            (VStr "").

(** ** Contracts the three normalizers share *)

(** How a normalizer for the container key [key] reads its payload: the
    array under [key] if that property is truthy, else the array under
    [data], else the payload itself; anything that is not an array gives
    the empty list. *)
Definition unwraps_payload (key : string)
    (normalize : value -> World -> completion (list Item) * World) : Prop :=
  (forall (m : gmap string value) (items : list value) (w : World),
      m !! key = Some (VArr items) ->
      normalize (VObj m) w = normalize (VArr items) w) /\
  (forall (m : gmap string value) (items : list value) (w : World),
      truthy (get (VObj m) key) = false ->
      m !! "data" = Some (VArr items) ->
      normalize (VObj m) w = normalize (VArr items) w) /\
  (forall (m : gmap string value) (v : value) (w : World),
      m !! key = Some v -> truthy v = true -> isArray v = false ->
      normalize (VObj m) w = (Return [], w)) /\
  (forall (m : gmap string value) (w : World),
      truthy (get (VObj m) key) = false ->
      isArray (get (VObj m) "data") = false ->
      normalize (VObj m) w = (Return [], w)) /\
  (forall (data : value) (w : World),
      isArray data = false -> (forall m, data <> VObj m) ->
      normalize data w = (Return [], w)).

(** What a normalizer of type [t] makes of an array: it returns exactly
    when no element is [null] or [undefined], and then gives one item per
    record, in order, each of type [t] and keeping its record. *)
Definition maps_records (t : ItemType)
    (normalize : value -> World -> completion (list Item) * World) : Prop :=
  forall (items : list value) (w : World),
    (forallb (fun x => negb (nullish x)) items = true ->
     exists l w',
       normalize (VArr items) w = (Return l, w') /\
       map originalData l = items /\
       Forall (fun it => type it = t) l) /\
    (forallb (fun x => negb (nullish x)) items = false ->
     exists w', normalize (VArr items) w = (Throw "TypeError", w')).

(** The [unread] flag of the item made of a record: unread unless the
    record has an [unread] property that is falsy. *)
Definition unread_of_record (item : value) : bool :=
  negb (is_defined (get item "unread")) || truthy (get item "unread").

(** The body the three normalizers share, for the container key [key] and
    the arrow function [f]. *)
Definition normalize_with (key : string)
    (f : value -> World -> completion Item * World) (data : value) (w : World)
  : completion (list Item) * World :=
  if negb (truthy data) then (Return [], w) else
  match unwrap key data with
  | VArr items => array_map f items w
  | _ => (Return [], w)
  end.

(** The item's date is valid and its time value is [t]. *)
Definition has_time (h : Host) (t : Z) (it : Item) : bool :=
  match newDate h (date it) with
  | Some t' => t' =? t
  | None => false
  end.

(** The store [displayMail] leaves under the filter [filter]: the selected
    sequence sorted, the others as they were. *)
Definition sort_selected (h : Host) (filter : string) (d : MailData) (a : list Item)
  : MailData * list Item :=
  if String.eqb filter "mail" then
    ({| mail := js_sort h (mail d); letters := letters d; packages := packages d |}, a)
  else if String.eqb filter "letters" then
    ({| mail := mail d; letters := js_sort h (letters d); packages := packages d |}, a)
  else if String.eqb filter "packages" then
    ({| mail := mail d; letters := letters d; packages := js_sort h (packages d) |}, a)
  else if String.eqb filter "unread" then (d, a)
  else (d, js_sort h a).

(** ** Sessions: loads and view events in any order *)

(** What the user does to the loaded application: a click on the refresh
    button, with what the three fetches then give, or a view event. *)
Inductive Action : Type :=
| Refresh (rm rl rp : FetchResult)
| View (e : ViewEvent).

Definition step (h : Host) (a : Action) (st : MailApp) : MailApp :=
  match a with
  | Refresh rm rl rp => loadAllMail h rm rl rp st
  | View e => handle h e st
  end.

Definition run (h : Host) (actions : list Action) (st : MailApp) : MailApp :=
  foldl (fun s a => step h a s) st actions.

(** The union holds the items of the three category sequences, each
    sequence holds items of its own type only, and every item has kept a
    raw record. *)
Definition store_invariant (st : MailApp) : Prop :=
  allMailItems st
    ≡ₚ mail (mailData st) ++ letters (mailData st) ++ packages (mailData st) /\
  Forall (fun it => type it = TMail) (mail (mailData st)) /\
  Forall (fun it => type it = TLetter) (letters (mailData st)) /\
  Forall (fun it => type it = TPackage) (packages (mailData st)) /\
  Forall (fun it => nullish (originalData it) = false) (allMailItems st).

(** The counters on the page are those of the store. *)
Definition stats_consistent (st : MailApp) : Prop :=
  totalMail (stats st) = length (mail (mailData st)) /\
  totalLetters (stats st) = length (letters (mailData st)) /\
  totalPackages (stats st) = length (packages (mailData st)) /\
  totalAll (stats st)
  = (length (mail (mailData st)) + length (letters (mailData st))
     + length (packages (mailData st)))%nat /\
  count_all (stats st) = totalAll (stats st) /\
  count_mail (stats st) = totalMail (stats st) /\
  count_letters (stats st) = totalLetters (stats st) /\
  count_packages (stats st) = totalPackages (stats st) /\
  count_unread (stats st) = length (List.filter is_unread (allMailItems st)).

(** ** Escaping *)

(** [div.textContent = s; return div.innerHTML]: the serializer of text
    nodes writes [&amp;] for an ampersand, [&lt;] and [&gt;] for the angle
    brackets and [&nbsp;] for a no-break space (the bytes C2 A0 of its
    UTF-8 form); quotes are left as they are. *)
Fixpoint escape_text (s : string) : string :=
  match s with
  | EmptyString => EmptyString
  | String c rest =>
      if Ascii.eqb c (Ascii.ascii_of_nat 38) then "&amp;" +:+ escape_text rest
      else if Ascii.eqb c (Ascii.ascii_of_nat 60) then "&lt;" +:+ escape_text rest
      else if Ascii.eqb c (Ascii.ascii_of_nat 62) then "&gt;" +:+ escape_text rest
      else if Ascii.eqb c (Ascii.ascii_of_nat 194) then
        match rest with
        | String c' rest' =>
            if Ascii.eqb c' (Ascii.ascii_of_nat 160)
            then "&nbsp;" +:+ escape_text rest'
            else String c (escape_text rest)
        | EmptyString => String c EmptyString
        end
      else String c (escape_text rest)
  end.

(** [escapeHtml(text)]: the markup for the text of [text || '']. *)
Definition escapeHtml (h : Host) (text : value) : string :=
  escape_text (toText h (text ||| VStr "")).

(** The no-break space, in UTF-8. *)
Definition no_break_space : string :=
  String (Ascii.ascii_of_nat 194) (String (Ascii.ascii_of_nat 160) EmptyString).

(** A byte that is neither an ampersand nor an angle bracket. *)
Definition text_byte (c : Ascii.ascii) : bool :=
  negb (Ascii.eqb c (Ascii.ascii_of_nat 38) || Ascii.eqb c (Ascii.ascii_of_nat 60)
        || Ascii.eqb c (Ascii.ascii_of_nat 62)).

(** ** The API key *)

(** The white space and line terminators [String.prototype.trim] strips,
    by the bytes of their UTF-8 form.  One byte: TAB, LF, VT, FF, CR and
    the space. *)
Definition is_space (c : Ascii.ascii) : bool :=
  let n := Ascii.nat_of_ascii c in
  ((9 <=? n) && (n <=? 13) || (n =? 32))%nat.

(** Two bytes: the no-break space U+00A0. *)
Definition is_space2 (c1 c2 : Ascii.ascii) : bool :=
  ((Ascii.nat_of_ascii c1 =? 194) && (Ascii.nat_of_ascii c2 =? 160))%nat.

(** Three bytes: U+1680; U+2000 to U+200A, the line and paragraph
    separators U+2028 and U+2029, U+202F; U+205F; U+3000; and the byte
    order mark U+FEFF. *)
Definition is_space3 (c1 c2 c3 : Ascii.ascii) : bool :=
  let n1 := Ascii.nat_of_ascii c1 in
  let n2 := Ascii.nat_of_ascii c2 in
  let n3 := Ascii.nat_of_ascii c3 in
  ((n1 =? 225) && (n2 =? 154) && (n3 =? 128)
   || (n1 =? 226) && (n2 =? 128)
      && ((128 <=? n3) && (n3 <=? 138) || (n3 =? 168) || (n3 =? 169) || (n3 =? 175))
   || (n1 =? 226) && (n2 =? 129) && (n3 =? 159)
   || (n1 =? 227) && (n2 =? 128) && (n3 =? 128)
   || (n1 =? 239) && (n2 =? 187) && (n3 =? 191))%nat.

Fixpoint trim_start (s : string) : string :=
  match s with
  | EmptyString => EmptyString
  | String c1 r1 =>
      if is_space c1 then trim_start r1 else
      match r1 with
      | String c2 r2 =>
          if is_space2 c1 c2 then trim_start r2 else
          match r2 with
          | String c3 r3 => if is_space3 c1 c2 c3 then trim_start r3 else s
          | EmptyString => s
          end
      | EmptyString => s
      end
  end.

(** The rest of the string behind one leading white space character, if
    it starts with one: one step of [trim_start]. *)
Definition strip_space (s : string) : option string :=
  match s with
  | EmptyString => None
  | String c1 r1 =>
      if is_space c1 then Some r1 else
      match r1 with
      | String c2 r2 =>
          if is_space2 c1 c2 then Some r2 else
          match r2 with
          | String c3 r3 => if is_space3 c1 c2 c3 then Some r3 else None
          | EmptyString => None
          end
      | EmptyString => None
      end
  end.

(** The string is white space from its first byte to its last. *)
Definition blank (s : string) : bool := String.eqb (trim_start s) "".

(** The bytes are kept up to the point from which only white space
    follows. *)
Fixpoint trim_end (s : string) : string :=
  match s with
  | EmptyString => EmptyString
  | String c rest => if blank s then EmptyString else String c (trim_end rest)
  end.

Definition trim (s : string) : string := trim_end (trim_start s).

(** The key field, the save button, the stored key and the alerts raised
    ([None]: nothing is stored under ['hackmail_api_key']). *)
Record KeyUi : Type := {
  apiKeyInput : string;
  saveKeyBtn_saved : bool;
  stored_key : option string;
  alerts : list string
}.

Definition set_apiKey (key : string) (st : MailApp) : MailApp :=
  {| currentFilter := currentFilter st; apiKey := key; mailData := mailData st;
     allMailItems := allMailItems st; mailList := mailList st; stats := stats st;
     searchBox := searchBox st; activeCategory := activeCategory st;
     refreshBtn_loading := refreshBtn_loading st; errors_shown := errors_shown st;
     console := console st; world := world st |}.

Definition saveApiKey (st : MailApp) (ui : KeyUi) : MailApp * KeyUi :=
  let key := trim (apiKeyInput ui) in
  if String.eqb key "" then
    (st, {| apiKeyInput := apiKeyInput ui; saveKeyBtn_saved := saveKeyBtn_saved ui;
            stored_key := stored_key ui;
            alerts := alerts ui ++ ["Please enter an API key"] |})
  else
    (log_console "API key saved successfully" (set_apiKey key st),
     {| apiKeyInput := apiKeyInput ui; saveKeyBtn_saved := true;
        stored_key := Some key; alerts := alerts ui |}).

(** [loadApiKeyFromStorage]: a stored key that is not empty fills the
    field and becomes the key in use. *)
Definition loadApiKeyFromStorage (st : MailApp) (ui : KeyUi) : MailApp * KeyUi :=
  match stored_key ui with
  | Some savedKey =>
      if String.eqb savedKey "" then (st, ui)
      else (set_apiKey savedKey st,
            {| apiKeyInput := savedKey; saveKeyBtn_saved := true;
               stored_key := stored_key ui; alerts := alerts ui |})
  | None => (st, ui)
  end.

(** The input listener of the key field: the browser has put [text] into
    the field, and the button loses its saved look. *)
Definition on_apiKeyInput (text : string) (ui : KeyUi) : KeyUi :=
  {| apiKeyInput := text; saveKeyBtn_saved := false;
     stored_key := stored_key ui; alerts := alerts ui |}.

(** A page opened anew over what the last one stored: the constructor's
    state with an empty key, then [loadApiKeyFromStorage]. *)
Definition open_page (stored : option string) (w : World) : MailApp * KeyUi :=
  loadApiKeyFromStorage (new_MailApp "" w)
    {| apiKeyInput := ""; saveKeyBtn_saved := false; stored_key := stored;
       alerts := [] |}.

(** ** The detail view *)

(** What the detail view asks of the browser besides [Host]. *)
Record DetailHost : Type := {
  (** [new Date(v).toLocaleString('en-US', {...})]; [None]: an invalid date *)
  toLocaleString : option Z -> string;
  (** [Number.prototype.toFixed(4)] *)
  toFixed4 : Q -> string
}.

(** How the three Leaflet statements in the [try] block of [initMap] end:
    all return, or one throws before [this.currentMap] is assigned, or one
    throws after. *)
Inductive Leaflet : Type := MapReady | MapThrewBefore | MapThrewAfter.

(** The modal and the map: whether the modal is displayed and the body
    locked, the texts of title, meta line (sender, date, type), grid and
    content, whether the map section is displayed, the placeholder line
    written into the map container, and [this.currentMap] (the point the
    live map was made for). *)
Record Modal : Type := {
  modal_shown : bool;
  body_locked : bool;
  modalTitle : string;
  modalMeta : string * string * string;
  detailGrid : list (string * string);
  detailContent : string;
  mapSection_shown : bool;
  map_placeholder : option string;
  currentMap : option LocationPoint
}.

Definition set_modalTitle (title : string) (m : Modal) : Modal :=
  {| modal_shown := modal_shown m; body_locked := body_locked m;
     modalTitle := title; modalMeta := modalMeta m; detailGrid := detailGrid m;
     detailContent := detailContent m; mapSection_shown := mapSection_shown m;
     map_placeholder := map_placeholder m; currentMap := currentMap m |}.

Definition set_modalMeta (meta : string * string * string) (m : Modal) : Modal :=
  {| modal_shown := modal_shown m; body_locked := body_locked m;
     modalTitle := modalTitle m; modalMeta := meta; detailGrid := detailGrid m;
     detailContent := detailContent m; mapSection_shown := mapSection_shown m;
     map_placeholder := map_placeholder m; currentMap := currentMap m |}.

Definition set_detailGrid (grid : list (string * string)) (m : Modal) : Modal :=
  {| modal_shown := modal_shown m; body_locked := body_locked m;
     modalTitle := modalTitle m; modalMeta := modalMeta m; detailGrid := grid;
     detailContent := detailContent m; mapSection_shown := mapSection_shown m;
     map_placeholder := map_placeholder m; currentMap := currentMap m |}.

Definition set_detailContent (content : string) (m : Modal) : Modal :=
  {| modal_shown := modal_shown m; body_locked := body_locked m;
     modalTitle := modalTitle m; modalMeta := modalMeta m;
     detailGrid := detailGrid m; detailContent := content;
     mapSection_shown := mapSection_shown m;
     map_placeholder := map_placeholder m; currentMap := currentMap m |}.

Definition set_mapSection (shown : bool) (m : Modal) : Modal :=
  {| modal_shown := modal_shown m; body_locked := body_locked m;
     modalTitle := modalTitle m; modalMeta := modalMeta m;
     detailGrid := detailGrid m; detailContent := detailContent m;
     mapSection_shown := shown;
     map_placeholder := map_placeholder m; currentMap := currentMap m |}.

Definition set_map (placeholder : option string) (map : option LocationPoint)
    (m : Modal) : Modal :=
  {| modal_shown := modal_shown m; body_locked := body_locked m;
     modalTitle := modalTitle m; modalMeta := modalMeta m;
     detailGrid := detailGrid m; detailContent := detailContent m;
     mapSection_shown := mapSection_shown m;
     map_placeholder := placeholder; currentMap := map |}.

Definition set_modal (shown : bool) (m : Modal) : Modal :=
  {| modal_shown := shown; body_locked := shown;
     modalTitle := modalTitle m; modalMeta := modalMeta m;
     detailGrid := detailGrid m; detailContent := detailContent m;
     mapSection_shown := mapSection_shown m;
     map_placeholder := map_placeholder m; currentMap := currentMap m |}.

(** [v.toFixed(4)]: only a number has the method. *)
Definition toFixed (dh : DetailHost) (v : value) : completion string :=
  match v with
  | VNum q => Return (toFixed4 dh q)
  | _ => Throw "TypeError"
  end.

(** [initMap]: the map held so far is removed and the container emptied;
    then the map is made, or the [catch] block writes the placeholder
    line, whose two [toFixed] calls may throw in their turn.  The result
    is the modal and what was thrown, if anything. *)
Definition initMap (dh : DetailHost) (leaflet : Leaflet) (locationData : LocationPoint)
    (m : Modal) : Modal * option string :=
  let m := set_map None None m in
  match leaflet with
  | MapReady => (set_map None (Some locationData) m, None)
  | _ =>
      let map := match leaflet with
                 | MapThrewAfter => Some locationData
                 | _ => None
                 end in
      match toFixed dh (lat locationData) with
      | Throw e => (set_map None map m, Some e)
      | Return a =>
          match toFixed dh (lng locationData) with
          | Throw e => (set_map None map m, Some e)
          | Return b => (set_map (Some ("Location: " +:+ a +:+ ", " +:+ b)) map m, None)
          end
      end
  end.

(** [closeModal] *)
Definition closeModal (m : Modal) : Modal :=
  set_map (map_placeholder m) None (set_modal false m).

(** [String(v)], a template literal and the assignment of a value that is
    not nullish to [textContent]: the text, or the [TypeError] of a value
    that is not [printable]. *)
Definition toString (h : Host) (v : value) : completion string :=
  if printable v then Return (toText h v) else Throw "TypeError".

(** The text [el.textContent = v] gives the element when it returns:
    [null] and [undefined] give the empty text. *)
Definition shown_text (h : Host) (v : value) : string :=
  match v with
  | VUndefined | VNull => ""
  | _ => toText h v
  end.

(** [el.textContent = v] *)
Definition textContent_of (h : Host) (v : value) : completion string :=
  if nullish v then Return "" else toString h v.

(** The cells of the detail grid, [String(detail.value)] for each pair in
    turn: the first conversion that throws ends the [map]. *)
Fixpoint grid_cells (h : Host) (details : list (string * value))
  : completion (list (string * string)) :=
  match details with
  | [] => Return []
  | d :: rest =>
      match toString h d.2 with
      | Throw e => Throw e
      | Return text =>
          match grid_cells h rest with
          | Throw e => Throw e
          | Return cells => Return ((d.1, text) :: cells)
          end
      end
  end.

(** [i.id === itemId] for the string [itemId] of a [data-id] attribute. *)
Definition id_is (itemId : string) (i : Item) : bool :=
  match id i with
  | VStr s => String.eqb s itemId
  | _ => false
  end.

(** [showMailDetail]: the modal after the call and what the call threw,
    if anything.  Each statement that converts a value of the item to a
    string or to a date throws when the value is not [printable], and
    leaves the modal as the statements before it made it.  (The texts of
    the meta line and of the grid pass through the HTML parser: they are
    these for [plain] texts.) *)
Definition showMailDetail (h : Host) (dh : DetailHost) (leaflet : Leaflet)
    (itemId : string) (st : MailApp) (m : Modal) : Modal * option string :=
  match List.find (id_is itemId) (allMailItems st) with
  | None => (m, None)
  | Some item =>
      match textContent_of h (subject item) with
      | Throw e => (m, Some e)
      | Return title =>
      let m := set_modalTitle title m in
      if negb (printable (date item)) then (m, Some "TypeError") else
      match toString h (from item ||| VStr "") with
      | Throw e => (m, Some e)
      | Return sender =>
      let m := set_modalMeta (sender, toLocaleString dh (newDate h (date item)),
                              badgeText (type item)) m in
      match extractDetails item with
      | Throw e => (m, Some e)
      | Return details =>
      match grid_cells h details with
      | Throw e => (m, Some e)
      | Return cells =>
      let m := set_detailGrid cells m in
      match textContent_of h (preview item ||| get (originalData item) "body"
                              ||| get (originalData item) "description"
                              ||| VStr "No content available") with
      | Throw e => (m, Some e)
      | Return content =>
      let m := set_detailContent content m in
      match extractLocationData item with
      | Throw e => (m, Some e)
      | Return (Some locationData) =>
          match initMap dh leaflet locationData (set_mapSection true m) with
          | (m, Some e) => (m, Some e)
          | (m, None) => (set_modal true m, None)
          end
      | Return None => (set_modal true (set_mapSection false m), None)
      end
      end
      end
      end
      end
      end
  end.

(** What happens to the modal: a click on a list element with the
    [data-id] [itemId] (and how Leaflet then fares), or one of the three
    ways to close it (the close button, a click on the overlay itself,
    the Escape key). *)
Inductive DetailEvent : Type :=
| MailItemClick (itemId : string) (leaflet : Leaflet)
| CloseModal.

Definition detail_step (h : Host) (dh : DetailHost) (st : MailApp)
    (e : DetailEvent) (m : Modal) : Modal * option string :=
  match e with
  | MailItemClick itemId leaflet => showMailDetail h dh leaflet itemId st m
  | CloseModal => (closeModal m, None)
  end.

(** A sequence of such events over one store: the modal at the end and
    everything thrown on the way. *)
Fixpoint detail_run (h : Host) (dh : DetailHost) (st : MailApp)
    (events : list DetailEvent) (m : Modal) : Modal * list string :=
  match events with
  | [] => (m, [])
  | e :: rest =>
      let '(m1, thrown) := detail_step h dh st e m in
      let '(m2, later) := detail_run h dh st rest m1 in
      (m2, match thrown with Some t => t :: later | None => later end)
  end.

(** The modal of the static page: hidden, empty, no map. *)
Definition closed_modal : Modal :=
  {| modal_shown := false; body_locked := false; modalTitle := "";
     modalMeta := ("", "", ""); detailGrid := []; detailContent := "";
     mapSection_shown := false; map_placeholder := None; currentMap := None |}.

Definition sample_detail_host : DetailHost :=
  {| toLocaleString := fun _ => "Thu, Jan 1, 1970, 12:00 AM";
     toFixed4 := fun _ => "0.0000" |}.

(** [v] is a number. *)
Definition is_number (v : value) : bool :=
  match v with
  | VNum _ => true
  | _ => false
  end.

(** The item's [id] is a string. *)
Definition has_string_id (i : Item) : bool :=
  match id i with
  | VStr _ => true
  | _ => false
  end.

(** The state after loading one package whose id is the number 7. *)
Definition loaded_numeric_id : MailApp :=
  loadAllMail sample_host (ok_json (VArr [])) (ok_json (VArr []))
    (ok_json (VArr [VObj (<["id" := num 7]> (<["date" := num 1000]> ∅))]))
    (new_MailApp "key" world0).

(** The state after loading the package
    [{id: "p3", date: 1000, tracking_location: {lat: 5}}]. *)
Definition loaded_partial_point : MailApp :=
  loadAllMail sample_host (ok_json (VArr [])) (ok_json (VArr []))
    (ok_json (VArr [raw_package "p3" 1000
                      (<["tracking_location" := VObj (<["lat" := num 5]> ∅)]> ∅)]))
    (new_MailApp "key" world0).

(** ** Where the model of the page is the page *)

(** The categories the page is known to carry: those whose counters
    [updateStats] writes. *)
Definition categories : list string := ["all"; "mail"; "letters"; "packages"; "unread"].

(** A string of ASCII characters: on these [toLowerCase] above is
    [String.prototype.toLowerCase], and [includes] is the method of the
    same name. *)
Definition ascii_only (s : string) : bool :=
  forallb (fun c => (Ascii.nat_of_ascii c <? 128)%nat) (String.list_ascii_of_string s).

(** An ASCII text that comes back from the HTML parser as it went in: it
    holds no NUL, which the parser drops from text, and no carriage
    return, which it turns into a line feed. *)
Definition plain (s : string) : bool :=
  forallb (fun c => let n := Ascii.nat_of_ascii c in
                    ((0 <? n) && (n <? 128) && negb (n =? 13))%nat)
          (String.list_ascii_of_string s).

(** A text that stands between the double quotes of an attribute value as
    it is: no double quote, which would end the value, no ampersand, which
    may start a character reference, no NUL and no carriage return, which
    the parser rewrites. *)
Definition attribute_safe (s : string) : bool :=
  forallb (fun c => let n := Ascii.nat_of_ascii c in
                    negb ((n =? 0) || (n =? 13) || (n =? 34) || (n =? 38))%nat)
          (String.list_ascii_of_string s).

(** An item whose list element is the one [createMailItemHTML] gives: the
    five values the template converts to strings are [printable], so that
    the call returns, and the text of the [id] is safe in the [data-id]
    attribute, so that the markup parses to one [li.mail-item] with that
    [data-id]. *)
Definition renders (h : Host) (it : Item) : bool :=
  printable (id it) && attribute_safe (toText h (id it))
  && printable (from it) && printable (subject it) && printable (preview it)
  && printable (date it).

(** Such an item whose date is valid as well.  On a list of these the
    comparator of [displayMail] returns and is consistent, so that the
    list is sorted and rendered as [displayMail] has it above. *)
Definition listable (h : Host) (it : Item) : Prop :=
  renders h it = true /\ dated h it.

(** A raw record all of whose properties convert to strings. *)
Definition printable_record (raw : value) : Prop :=
  forall k : string, printable (get raw k) = true.

(** An item the detail view can show: every value [showMailDetail]
    converts to a string or to a date is [printable]. *)
Definition shows_in_detail (it : Item) : Prop :=
  printable (subject it) = true /\ printable (from it) = true /\
  printable (date it) = true /\ printable (preview it) = true /\
  printable_record (originalData it).

(** A fetch result whose records, unwrapped from [key], are printable. *)
Definition printable_payload (key : string) (r : FetchResult) : Prop :=
  match r with
  | Response _ (Some data) =>
      match unwrap key data with
      | VArr items => Forall printable_record items
      | _ => True
      end
  | _ => True
  end.

(** An action of a session that brings in printable records only. *)
Definition printable_action (a : Action) : Prop :=
  match a with
  | Refresh rm rl rp =>
      printable_payload "mail" rm /\ printable_payload "letters" rl /\
      printable_payload "packages" rp
  | View _ => True
  end.

(** ** Generated ids and dates *)

(** The ids a run gives the records of a payload when [n] tokens have
    been drawn before it: a record with a truthy [id] keeps it, the others
    get the next tokens in turn. *)
Fixpoint ids_from (h : Host) (n : nat) (items : list value) : list value :=
  match items with
  | [] => []
  | x :: rest =>
      if truthy (get x "id") then get x "id" :: ids_from h n rest
      else VStr (random_token h n) :: ids_from h (S n) rest
  end.

(** The records of a payload that carry no truthy [id]. *)
Definition without_id (items : list value) : list value :=
  List.filter (fun x => negb (truthy (get x "id"))) items.

(** What a normalizer does about ids, on an array without [null]
    elements: the ids are those of [ids_from], and the run draws one token
    for each record without an id and no other. *)
Definition draws_ids (h : Host)
    (normalize : value -> World -> completion (list Item) * World) : Prop :=
  forall (items : list value) (w : World),
    forallb (fun x => negb (nullish x)) items = true ->
    exists l w',
      normalize (VArr items) w = (Return l, w') /\
      map id l = ids_from h (random_calls w) items /\
      random_calls w' = (random_calls w + length (without_id items))%nat.

(** What the arrow function of a normalizer, run on the record [item] in
    the world [w] with the alternate date field [alt], generates: the id
    is the record's when that is truthy and the next random token
    otherwise; the date is the record's [date] or [alt] when one is truthy
    and the next clock reading, printed by [toISOString], otherwise; and
    one token, one clock reading, is consumed exactly in the second
    case. *)
Definition generates (h : Host) (alt : string) (item : value) (w : World)
    (result : completion Item * World) : Prop :=
  exists it,
    result.1 = Return it /\
    id it = (if truthy (get item "id") then get item "id"
             else VStr (random_token h (random_calls w))) /\
    date it = (if truthy (get item "date" ||| get item alt)
               then get item "date" ||| get item alt
               else VStr (toISOString h (clock_ms h (clock_calls w)))) /\
    random_calls result.2
    = (random_calls w + if truthy (get item "id") then 0 else 1)%nat /\
    clock_calls result.2
    = (clock_calls w + if truthy (get item "date" ||| get item alt) then 0 else 1)%nat.

(** * Properties *)

(** ** Values *)

Lemma truthy_js_and a b : truthy (a &&& b) = truthy a && truthy b.
Proof. unfold js_and. destruct (truthy a) eqn:E; simpl; auto. Qed.

Lemma is_zero_falsy v : is_zero v = true -> truthy v = false.
Proof. destruct v; simpl; try discriminate. intros ->. reflexivity. Qed.

Lemma truthy_not_zero v : truthy v = true -> is_zero v = false.
Proof.
  destruct (is_zero v) eqn:E; [|reflexivity].
  rewrite (is_zero_falsy v E). discriminate.
Qed.

(** ** Normalizer: the package fallback chains *)

(** Closed goals: split the conjunctions and evaluate each side. *)
Ltac by_evaluation :=
  cbv zeta;
  repeat match goal with
         | |- _ /\ _ => split
         end;
  vm_compute; reflexivity.

(** Whatever the fields hold, each package chain yields its first truthy
    candidate: a field that is absent, [null], empty, zero or [false] is
    passed over. *)
Lemma normalizePackageItem_first_truthy h w m :
  exists it w',
    normalizePackageItem h (VObj m) w = (Return it, w') /\
    from it = first_truthy
                [get (VObj m) "from"; get (VObj m) "sender"; get (VObj m) "carrier"]
                (VStr "Unknown") /\
    subject it = first_truthy
                   [get (VObj m) "subject"; get (VObj m) "tracking_number"]
                   (VStr "Package") /\
    preview it = first_truthy
                   [get (VObj m) "preview"; get (VObj m) "description";
                    get (VObj m) "status"]
                   (VStr "").
Proof.
  unfold normalizePackageItem. cbn [nullish].
  destruct (id_or_random h (VObj m) w) as [i w1].
  destruct (date_or_now h "received_at" (VObj m) w1) as [d w2].
  eexists _, _. split; [reflexivity|]. cbn [from subject preview first_truthy].
  unfold js_or.
  repeat match goal with
         | |- context [truthy ?v] =>
             lazymatch v with
             | if _ then _ else _ => fail
             | _ => destruct (truthy v) eqn:?
             end
         end;
    repeat split; congruence.
Qed.

Lemma js_or_first_truthy3 a b c d : a ||| b ||| c ||| d = first_truthy [a; b; c] d.
Proof.
  unfold js_or. cbn [first_truthy].
  destruct (truthy a) eqn:Ea; [now rewrite !Ea|].
  destruct (truthy b) eqn:Eb; [now rewrite !Eb|].
  destruct (truthy c) eqn:Ec; now rewrite ?Ec.
Qed.

Lemma js_or_first_truthy2 a b d : a ||| b ||| d = first_truthy [a; b] d.
Proof.
  unfold js_or. cbn [first_truthy].
  destruct (truthy a) eqn:Ea; [now rewrite !Ea|].
  destruct (truthy b) eqn:Eb; now rewrite ?Eb.
Qed.

Lemma normalizePackageItem_chains h item w :
  nullish item = false ->
  exists it w', normalizePackageItem h item w = (Return it, w') /\ package_chains item it.
Proof.
  intros Hn. unfold normalizePackageItem. rewrite Hn.
  destruct (id_or_random h item w) as [i w1].
  destruct (date_or_now h "received_at" item w1) as [d w2].
  eexists _, _. split; [reflexivity|]. unfold package_chains. cbn [from subject preview].
  split; [apply js_or_first_truthy3|].
  split; [apply js_or_first_truthy2 | apply js_or_first_truthy3].
Qed.

Lemma array_map_package_chains h records :
  forall w,
    forallb (fun x => negb (nullish x)) records = true ->
    exists items w',
      array_map (normalizePackageItem h) records w = (Return items, w') /\
      Forall2 package_chains records items.
Proof.
  induction records as [|x rest IH]; intros w Hall.
  - exists [], w. split; [reflexivity | constructor].
  - cbn [forallb] in Hall. apply andb_prop in Hall as [Hx Hrest].
    apply negb_true_iff in Hx.
    destruct (normalizePackageItem_chains h x w Hx) as (it & w1 & Hit & Hchains).
    destruct (IH w1 Hrest) as (items & w' & Hitems & Hall).
    exists (it :: items), w'. cbn [array_map]. rewrite Hit, Hitems.
    split; [reflexivity | now constructor].
Qed.

Lemma unwrap_array_truthy key data items :
  unwrap key data = VArr items -> truthy data = true.
Proof.
  intros H. destruct data; try reflexivity; cbn in H; discriminate H.
Qed.

(** C5, as the code has it. For every package payload, whatever its shape,
    and every record of it (a payload with a [null] element has no item at
    all: the normalizer throws), [normalizePackagesData] returns one item
    per record whose [from] is the first truthy of from, sender, carrier,
    else "Unknown"; whose [subject] is the first truthy of subject,
    tracking_number, else "Package"; whose [preview] is the first truthy of
    preview, description, status, else "": a field that is absent, [null],
    empty, zero or [false] is passed over.  And the payload
    [[{tracking_number: "T1"}]] normalizes to one item with subject "T1",
    whatever the host and the world. *)
Theorem normalizePackagesData_fallback_chains :
  forall (h : Host) (w : World) (data : value) (records : list value),
    unwrap "packages" data = VArr records ->
    forallb (fun x => negb (nullish x)) records = true ->
    (exists items w',
        normalizePackagesData h data w = (Return items, w') /\
        Forall2 package_chains records items) /\
    cmap (map subject)
         (normalizePackagesData h
            (VArr [VObj (<["tracking_number" := VStr "T1"]> ∅)]) w).1
    = Return [VStr "T1"].
Proof.
  intros h w data records Hdata Hall. split.
  - unfold normalizePackagesData.
    rewrite (unwrap_array_truthy _ _ _ Hdata), Hdata. cbn [negb].
    now apply array_map_package_chains.
  - unfold normalizePackagesData.
    cbn [truthy negb unwrap get js_or array_map].
    unfold normalizePackageItem. cbn [nullish].
    destruct (id_or_random h _ w) as [i w1].
    destruct (date_or_now h "received_at" _ w1) as [d w2].
    reflexivity.
Qed.

Lemma normalizePackagesData_fallback_chains_witness :
  exists items w',
    normalizePackagesData sample_host
      (VObj (<["packages" :=
                 VArr [VObj (<["carrier" := VStr "UPS"]>
                               (<["tracking_number" := VStr "T1"]>
                                  (<["preview" := VStr ""]>
                                     (<["status" := VStr "shipped"]> ∅))));
                       VObj (<["from" := VBool false]>
                               (<["sender" := VStr "Bob"]>
                                  (<["tracking_number" := num 12345]> ∅)))]]> ∅))
      world0 = (Return items, w') /\
    Forall2 package_chains
      [VObj (<["carrier" := VStr "UPS"]>
               (<["tracking_number" := VStr "T1"]>
                  (<["preview" := VStr ""]> (<["status" := VStr "shipped"]> ∅))));
       VObj (<["from" := VBool false]>
               (<["sender" := VStr "Bob"]> (<["tracking_number" := num 12345]> ∅)))]
      items.
Proof.
  apply (normalizePackagesData_fallback_chains sample_host world0);
    vm_compute; reflexivity.
Defined.

(** C5 as stated fails: in the record [{from: 0, sender: "Bob"}] the field
    [from] is present, not null and not empty, so it is the one the stated
    chain picks; the code passes over it and takes the sender. *)
Lemma normalizePackagesData_passes_over_zero :
  let raw := VObj (<["from" := num 0]> (<["sender" := VStr "Bob"]> ∅)) in
  cmap (map from) (normalizePackagesData sample_host (VArr [raw]) world0).1
  = Return [VStr "Bob"] /\
  spec_fallback [get raw "from"; get raw "sender"; get raw "carrier"] (VStr "Unknown")
  = num 0.
Proof. by_evaluation. Qed.

(** ** Detail extraction *)

Lemma push_if_select data key label details :
  push_if data key label details
  = details ++ omap (fun kl : string * string =>
                       if truthy (get data kl.1) then Some (kl.2, get data kl.1)
                       else None) [(key, label)].
Proof.
  unfold push_if. cbn [omap list_omap fst snd].
  destruct (truthy (get data key)); cbn; [reflexivity | now rewrite app_nil_r].
Qed.

(** C8, as the code has it. [extractDetails] returns label/value pairs
    drawn only from the fixed vocabulary (id, status, tracking_number,
    carrier, weight, dimensions, sender_address, recipient_address,
    estimated_delivery), in exactly that order, including a key if and only
    if its raw value is truthy: present and neither [null], [false], zero
    nor the empty string.  (It throws only for an item without a raw
    record.) *)
Theorem extractDetails_vocabulary :
  forall item : Item,
    extractDetails item
    = (if nullish (originalData item) then Throw "TypeError"
       else Return (select_fields truthy (originalData item))) /\
    (forall (l : string) (v : value),
        (l, v) ∈ select_fields truthy (originalData item) <->
        exists k, (k, l) ∈ detail_vocabulary /\
                  get (originalData item) k = v /\ truthy v = true).
Proof.
  intros item. split.
  - unfold extractDetails. destruct (nullish (originalData item)); [reflexivity|].
    cbv zeta. rewrite !push_if_select. unfold select_fields, detail_vocabulary.
    cbn [app]. rewrite <- !app_assoc. rewrite <- !omap_app. reflexivity.
  - intros l v. unfold select_fields. rewrite list_elem_of_omap. split.
    + intros [[k l'] [Hin Hsel]]. cbn [fst snd] in Hsel.
      destruct (truthy (get (originalData item) k)) eqn:Ht; [|discriminate].
      injection Hsel as <- <-. exists k. auto.
    + intros (k & Hin & <- & Ht). exists (k, l). split; [exact Hin|].
      cbn [fst snd]. now rewrite Ht.
Qed.

(** C8 as stated fails: in the record [{id: 0, status: "ok"}] the id is
    present and not empty, yet [extractDetails] leaves it out. *)
Lemma extractDetails_drops_zero_id :
  let item := {| id := VStr "r0"; type := TPackage; from := VStr "Unknown";
                 subject := VStr "Package"; preview := VStr "ok"; date := VStr "5000";
                 unread := VBool true;
                 originalData :=
                   VObj (<["id" := num 0]> (<["status" := VStr "ok"]> ∅)) |} in
  (normalizePackagesData sample_host
     (VArr [VObj (<["id" := num 0]> (<["status" := VStr "ok"]> ∅))]) world0).1
  = Return [item] /\
  extractDetails item = Return [("Status", VStr "ok")] /\
  spec_extractFields item = [("ID", num 0); ("Status", VStr "ok")].
Proof. by_evaluation. Qed.

(** ** Location extraction *)

Lemma extractLocationData_chain item :
  nullish (originalData item) = false ->
  extractLocationData item
  = Return (match location_shape (originalData item) with
            | Some p => Some p
            | None => match latitude_shape (originalData item) with
                      | Some p => Some p
                      | None => tracking_shape (originalData item)
                      end
            end).
Proof.
  intros Hn. unfold extractLocationData. rewrite Hn.
  destruct (location_shape _); [reflexivity|].
  destruct (latitude_shape _); [reflexivity|].
  destruct (tracking_shape _); reflexivity.
Qed.

Lemma location_shape_zero data :
  is_zero (get (get data "location") "lat") = true \/
  is_zero (get (get data "location") "lng") = true ->
  location_shape data = None.
Proof.
  intros Hz. unfold location_shape.
  destruct (truthy (get data "location")); [|reflexivity].
  rewrite truthy_js_and.
  destruct Hz as [Hz | Hz]; rewrite (is_zero_falsy _ Hz);
    [reflexivity | now rewrite andb_false_r].
Qed.

Lemma location_shape_absent (m : gmap string value) :
  location_shape (VObj (delete "location" m)) = None.
Proof.
  unfold location_shape. cbn [get]. now rewrite lookup_delete_eq.
Qed.

Lemma other_shapes_delete_location (m : gmap string value) :
  latitude_shape (VObj (delete "location" m)) = latitude_shape (VObj m) /\
  tracking_shape (VObj (delete "location" m)) = tracking_shape (VObj m).
Proof.
  unfold latitude_shape, tracking_shape. cbn [get].
  rewrite !lookup_delete_ne by discriminate. auto.
Qed.

(** C10. [extractLocationData] treats a coordinate equal to 0 as absent:
    if [location.lat] or [location.lng] of the raw record is 0, the result
    is the one for the same record without its [location] (the shape is
    skipped); a record with [latitude] 0 and [longitude] 0 and neither
    [location] nor [tracking_location] yields no point; and no point
    returned by either of the first two shapes has a zero coordinate. *)
Theorem extractLocationData_zero_is_absent :
  (forall (item item' : Item) (m : gmap string value),
      originalData item = VObj m ->
      originalData item' = VObj (delete "location" m) ->
      is_zero (get (get (VObj m) "location") "lat") = true \/
      is_zero (get (get (VObj m) "location") "lng") = true ->
      extractLocationData item = extractLocationData item') /\
  (forall (item : Item) (m : gmap string value),
      originalData item = VObj m ->
      m !! "location" = None -> m !! "tracking_location" = None ->
      is_zero (get (VObj m) "latitude") = true ->
      is_zero (get (VObj m) "longitude") = true ->
      extractLocationData item = Return None) /\
  (forall (data : value) (p : LocationPoint),
      location_shape data = Some p \/ latitude_shape data = Some p ->
      is_zero (lat p) = false /\ is_zero (lng p) = false).
Proof.
  split; [|split].
  - intros item item' m Hd Hd' Hz.
    rewrite !extractLocationData_chain by (rewrite ?Hd, ?Hd'; reflexivity).
    rewrite Hd, Hd'. rewrite (location_shape_zero _ Hz), location_shape_absent.
    destruct (other_shapes_delete_location m) as [-> ->]. reflexivity.
  - intros item m Hd Hl Ht Hlat Hlng.
    rewrite extractLocationData_chain by (rewrite Hd; reflexivity). rewrite Hd.
    assert (location_shape (VObj m) = None) as ->
      by (unfold location_shape; cbn [get]; now rewrite Hl).
    assert (tracking_shape (VObj m) = None) as ->
      by (unfold tracking_shape; cbn [get]; now rewrite Ht).
    unfold latitude_shape. rewrite truthy_js_and, (is_zero_falsy _ Hlat).
    reflexivity.
  - intros data p [H | H].
    + unfold location_shape in H.
      destruct (truthy (get data "location")); [|discriminate].
      rewrite truthy_js_and in H.
      destruct (truthy (get (get data "location") "lat")) eqn:E1; [|discriminate].
      destruct (truthy (get (get data "location") "lng")) eqn:E2; [|discriminate].
      injection H as <-. cbn [lat lng]. split; now apply truthy_not_zero.
    + unfold latitude_shape in H. rewrite truthy_js_and in H.
      destruct (truthy (get data "latitude")) eqn:E1; [|discriminate].
      destruct (truthy (get data "longitude")) eqn:E2; [|discriminate].
      injection H as <-. cbn [lat lng]. split; now apply truthy_not_zero.
Qed.

Lemma extractLocationData_zero_is_absent_witness :
  extractLocationData
    (package_item "p1" 1000
       (<["location" := VObj (<["lat" := num 0]> (<["lng" := num 7]> ∅))]>
          (<["latitude" := num 48]> (<["longitude" := num 2]> ∅))))
  = Return (Some {| lat := num 48; lng := num 2; label := VStr "Location" |}) /\
  extractLocationData
    (package_item "p2" 1000 (<["latitude" := num 0]> (<["longitude" := num 0]> ∅)))
  = Return None.
Proof.
  split.
  - rewrite (proj1 extractLocationData_zero_is_absent
               (package_item "p1" 1000
                  (<["location" := VObj (<["lat" := num 0]> (<["lng" := num 7]> ∅))]>
                     (<["latitude" := num 48]> (<["longitude" := num 2]> ∅))))
               {| id := VStr "p1"; type := TPackage; from := VStr "Unknown";
                  subject := VStr "Package"; preview := VStr ""; date := num 1000;
                  unread := VBool true;
                  originalData := VObj (delete "location" _) |}
               _ eq_refl eq_refl);
      [vm_compute; reflexivity | left; vm_compute; reflexivity].
  - apply (proj1 (proj2 extractLocationData_zero_is_absent)
             (package_item "p2" 1000
                (<["latitude" := num 0]> (<["longitude" := num 0]> ∅)))
             _ eq_refl);
      vm_compute; reflexivity.
Defined.

(** C6 fails on the third shape: the record
    [{id: "p3", date: 1000, tracking_location: {lat: 5}}] yields a point
    whose [lng] is [undefined], where the first two shapes return a point
    only when both coordinates are there. *)
Theorem extractLocationData_partial_tracking_point :
  (normalizePackagesData sample_host
     (VArr [raw_package "p3" 1000
              (<["tracking_location" := VObj (<["lat" := num 5]> ∅)]> ∅)]) world0).1
  = Return [package_item "p3" 1000
              (<["tracking_location" := VObj (<["lat" := num 5]> ∅)]> ∅)] /\
  extractLocationData
    (package_item "p3" 1000 (<["tracking_location" := VObj (<["lat" := num 5]> ∅)]> ∅))
  = Return (Some {| lat := num 5; lng := VUndefined;
                    label := VStr "Tracking Location" |}).
Proof. by_evaluation. Qed.

(** ** Relative dates *)

Lemma formatDate_reads_clock h dateString w :
  formatDate h dateString w
  = (formatDate_at h (clock_ms h (clock_calls w)) dateString, use_clock w).
Proof. reflexivity. Qed.

Lemma floor_lt_iff d k n : 0 < k -> (d / k <? n) = (d <? n * k).
Proof.
  intros Hk. destruct (Z.ltb_spec d (n * k)) as [H | H].
  - apply Z.ltb_lt. apply Z.div_lt_upper_bound; lia.
  - apply Z.ltb_ge. apply Z.div_le_lower_bound; lia.
Qed.

(** C7. For a date with time value [t] and a clock reading [now >= t],
    [formatDate] returns "now" under one minute, the whole minutes and "m"
    under 60 minutes, the whole hours and "h" under 24 hours, the whole
    days and "d" under 7 days, and the short month-and-day date from then
    on; the thresholds are half-open: exactly 60 minutes gives "1h",
    exactly 24 hours "1d", exactly 7 days the date; and 59 minutes gives
    "59m", 23 h 59 min "23h", 6 d 23 h "6d". *)
Theorem formatDate_thresholds :
  forall (h : Host) (dateString : value) (t now : Z),
    newDate h dateString = Some t ->
    t <= now ->
    let d := now - t in
    let shown := formatDate_at h now dateString in
    (d < 60000 -> shown = "now") /\
    (60000 <= d < 3600000 -> shown = pretty (d / 60000) +:+ "m") /\
    (3600000 <= d < 86400000 -> shown = pretty (d / 3600000) +:+ "h") /\
    (86400000 <= d < 604800000 -> shown = pretty (d / 86400000) +:+ "d") /\
    (604800000 <= d -> shown = toLocaleDateString h t) /\
    (d = 0 -> shown = "now") /\
    (d = 59 * 60000 -> shown = "59m") /\
    (d = 60 * 60000 -> shown = "1h") /\
    (d = 23 * 3600000 + 59 * 60000 -> shown = "23h") /\
    (d = 24 * 3600000 -> shown = "1d") /\
    (d = 6 * 86400000 + 23 * 3600000 -> shown = "6d") /\
    (d = 7 * 86400000 -> shown = toLocaleDateString h t).
Proof.
  intros h dateString t now Hdate Hle d shown.
  assert (Hshown : shown =
            if d <? 60000 then "now"
            else if d <? 3600000 then pretty (d / 60000) +:+ "m"
            else if d <? 86400000 then pretty (d / 3600000) +:+ "h"
            else if d <? 604800000 then pretty (d / 86400000) +:+ "d"
            else toLocaleDateString h t).
  { subst shown. unfold formatDate_at. rewrite Hdate. cbv zeta. fold d.
    rewrite !floor_lt_iff by lia. reflexivity. }
  rewrite Hshown. clear Hshown shown.
  repeat split; intros Hd;
    repeat match goal with
           | |- context [?a <? ?b] => destruct (Z.ltb_spec a b); try lia
           end;
    try reflexivity;
    rewrite Hd; vm_compute; reflexivity.
Qed.

Lemma formatDate_thresholds_witness :
  formatDate_at sample_host 3601000 (num 1000) = "1h" /\
  formatDate_at sample_host 3600999 (num 1000) = "59m".
Proof.
  split.
  - apply (formatDate_thresholds sample_host (num 1000) 1000 3601000 eq_refl);
      [vm_compute; discriminate | reflexivity].
  - rewrite (proj1 (proj2 (formatDate_thresholds sample_host (num 1000) 1000 3600999
                             eq_refl ltac:(vm_compute; discriminate)))).
    + vm_compute. reflexivity.
    + vm_compute. split; [discriminate | reflexivity].
Defined.

(** ** Normalizer: what depends on the host *)

Lemma truthy_get_not_nullish item k : truthy (get item k) = true -> nullish item = false.
Proof. destruct item; cbn; congruence. Qed.

(** The three arrow functions differ in their chains only; the argument is
    the same for each. *)
Ltac normalizer_fields :=
  intros h1 h2 w1 w2 item;
  match goal with
  | |- context [?f h1 item w1] => unfold f
  end;
  destruct (nullish item); [reflexivity|];
  destruct (id_or_random h1 item w1) as [? u1];
  destruct (id_or_random h2 item w2) as [? u2];
  destruct (date_or_now h1 _ item u1);
  destruct (date_or_now h2 _ item u2);
  reflexivity.

Ltac normalizer_given :=
  intros h1 h2 w1 w2 item Hgiven;
  apply andb_prop in Hgiven as [Hi Hd];
  pose proof (truthy_get_not_nullish _ _ Hi) as Hn;
  match goal with
  | |- context [?f h1 item w1] => unfold f
  end;
  unfold id_or_random, date_or_now; rewrite Hn, Hi, Hd;
  repeat split; eexists; reflexivity.

Section ArrayMap.

Variable f : Host -> value -> World -> completion Item * World.
Variable alt : string.

Hypothesis f_fields :
  forall h1 h2 w1 w2 item,
    cmap fields_from_record (f h1 item w1).1
    = cmap fields_from_record (f h2 item w2).1.

Hypothesis f_given :
  forall h1 h2 w1 w2 item,
    id_and_date_given alt item = true ->
    (f h1 item w1).1 = (f h2 item w2).1 /\
    (f h1 item w1).2 = w1 /\
    exists it, (f h1 item w1).1 = Return it.

Lemma array_map_fields h1 h2 items :
  forall w1 w2,
    cmap (map fields_from_record) (array_map (f h1) items w1).1
    = cmap (map fields_from_record) (array_map (f h2) items w2).1.
Proof.
  induction items as [|x rest IH]; intros w1 w2; [reflexivity|].
  cbn [array_map].
  pose proof (f_fields h1 h2 w1 w2 x) as Hx.
  destruct (f h1 x w1) as [[a1|e1] u1]; destruct (f h2 x w2) as [[a2|e2] u2];
    cbn [cmap cbind fst] in Hx |- *; try discriminate Hx; [|congruence].
  specialize (IH u1 u2).
  destruct (array_map (f h1) rest u1) as [[l1|e1] v1];
    destruct (array_map (f h2) rest u2) as [[l2|e2] v2];
    cbn [cmap cbind fst map] in IH |- *; congruence.
Qed.

Lemma array_map_given h1 h2 items :
  forallb (id_and_date_given alt) items = true ->
  forall w1 w2,
    (array_map (f h1) items w1).1 = (array_map (f h2) items w2).1 /\
    (array_map (f h1) items w1).2 = w1.
Proof.
  induction items as [|x rest IH]; intros Hall w1 w2; [split; reflexivity|].
  cbn [forallb] in Hall. apply andb_prop in Hall as [Hx Hrest].
  cbn [array_map].
  destruct (f_given h1 h2 w1 w2 x Hx) as (Heq & Hw & it & Hit).
  destruct (f h1 x w1) as [c1 u1]; destruct (f h2 x w2) as [c2 u2].
  cbn [fst snd] in Heq, Hw, Hit. subst c1 c2 u1.
  destruct (IH Hrest w1 u2) as [IH1 IH2].
  destruct (array_map (f h1) rest w1) as [[l1|e1] v1];
    destruct (array_map (f h2) rest u2) as [[l2|e2] v2];
    cbn [fst snd] in IH1, IH2 |- *; try discriminate IH1; subst;
    split; congruence.
Qed.

End ArrayMap.

Lemma normalizeMailItem_fields :
  forall h1 h2 w1 w2 item,
    cmap fields_from_record (normalizeMailItem h1 item w1).1
    = cmap fields_from_record (normalizeMailItem h2 item w2).1.
Proof. normalizer_fields. Qed.

Lemma normalizeLetterItem_fields :
  forall h1 h2 w1 w2 item,
    cmap fields_from_record (normalizeLetterItem h1 item w1).1
    = cmap fields_from_record (normalizeLetterItem h2 item w2).1.
Proof. normalizer_fields. Qed.

Lemma normalizePackageItem_fields :
  forall h1 h2 w1 w2 item,
    cmap fields_from_record (normalizePackageItem h1 item w1).1
    = cmap fields_from_record (normalizePackageItem h2 item w2).1.
Proof. normalizer_fields. Qed.

Lemma normalizeMailItem_given :
  forall h1 h2 w1 w2 item,
    id_and_date_given "created_at" item = true ->
    (normalizeMailItem h1 item w1).1 = (normalizeMailItem h2 item w2).1 /\
    (normalizeMailItem h1 item w1).2 = w1 /\
    exists it, (normalizeMailItem h1 item w1).1 = Return it.
Proof. normalizer_given. Qed.

Lemma normalizeLetterItem_given :
  forall h1 h2 w1 w2 item,
    id_and_date_given "received_at" item = true ->
    (normalizeLetterItem h1 item w1).1 = (normalizeLetterItem h2 item w2).1 /\
    (normalizeLetterItem h1 item w1).2 = w1 /\
    exists it, (normalizeLetterItem h1 item w1).1 = Return it.
Proof. normalizer_given. Qed.

Lemma normalizePackageItem_given :
  forall h1 h2 w1 w2 item,
    id_and_date_given "received_at" item = true ->
    (normalizePackageItem h1 item w1).1 = (normalizePackageItem h2 item w2).1 /\
    (normalizePackageItem h1 item w1).2 = w1 /\
    exists it, (normalizePackageItem h1 item w1).1 = Return it.
Proof. normalizer_given. Qed.

Lemma arrow_functions_generate h item w :
  nullish item = false ->
  generates h "created_at" item w (normalizeMailItem h item w) /\
  generates h "received_at" item w (normalizeLetterItem h item w) /\
  generates h "received_at" item w (normalizePackageItem h item w).
Proof.
  intros Hn.
  unfold generates, normalizeMailItem, normalizeLetterItem, normalizePackageItem,
    id_or_random, date_or_now.
  rewrite Hn.
  destruct (truthy (get item "id"));
    destruct (truthy (get item "date" ||| get item "created_at"));
    destruct (truthy (get item "date" ||| get item "received_at"));
    (split; [|split]); eexists;
    (split; [reflexivity|]); cbn [fst snd id date random_calls clock_calls
                                   use_random use_clock];
    repeat split; lia.
Qed.

(** C9, as the code has it. Two runs of a normalizer ([normalizeMailData],
    and likewise [normalizeLettersData] and [normalizePackagesData]) on the
    same payload, under any two hosts and worlds, agree on every field of
    every item except [id] and [date]; when every record carries a truthy
    [id] and a truthy [date] or alternate date field, the two runs return
    identical items and the run consumes no random token and no clock
    reading.  And for every record that is not [null], the item's [id] is
    the record's when that is truthy and the next token of the random
    source otherwise, its [date] is the record's [date] or alternate date
    field when one is truthy and the next reading of the clock otherwise,
    and a token, a clock reading, is consumed exactly when it is used. *)
Theorem normalizeMailData_deterministic_given_ids_and_dates :
  forall (h1 h2 : Host) (w1 w2 : World) (data : value),
    (cmap (map fields_from_record) (normalizeMailData h1 data w1).1
     = cmap (map fields_from_record) (normalizeMailData h2 data w2).1 /\
     (ids_and_dates_given "mail" "created_at" data = true ->
      (normalizeMailData h1 data w1).1 = (normalizeMailData h2 data w2).1 /\
      (normalizeMailData h1 data w1).2 = w1)) /\
    (cmap (map fields_from_record) (normalizeLettersData h1 data w1).1
     = cmap (map fields_from_record) (normalizeLettersData h2 data w2).1 /\
     (ids_and_dates_given "letters" "received_at" data = true ->
      (normalizeLettersData h1 data w1).1 = (normalizeLettersData h2 data w2).1 /\
      (normalizeLettersData h1 data w1).2 = w1)) /\
    (cmap (map fields_from_record) (normalizePackagesData h1 data w1).1
     = cmap (map fields_from_record) (normalizePackagesData h2 data w2).1 /\
     (ids_and_dates_given "packages" "received_at" data = true ->
      (normalizePackagesData h1 data w1).1 = (normalizePackagesData h2 data w2).1 /\
      (normalizePackagesData h1 data w1).2 = w1)) /\
    (forall item : value,
        nullish item = false ->
        generates h1 "created_at" item w1 (normalizeMailItem h1 item w1) /\
        generates h1 "received_at" item w1 (normalizeLetterItem h1 item w1) /\
        generates h1 "received_at" item w1 (normalizePackageItem h1 item w1)).
Proof.
  intros h1 h2 w1 w2 data.
  assert (Hgen : forall item : value,
             nullish item = false ->
             generates h1 "created_at" item w1 (normalizeMailItem h1 item w1) /\
             generates h1 "received_at" item w1 (normalizeLetterItem h1 item w1) /\
             generates h1 "received_at" item w1 (normalizePackageItem h1 item w1))
    by (intros item; apply arrow_functions_generate).
  unfold normalizeMailData, normalizeLettersData, normalizePackagesData,
    ids_and_dates_given.
  destruct (negb (truthy data));
    [repeat split; try reflexivity; now apply Hgen|].
  split; [|split; [|split; [|exact Hgen]]].
  - destruct (unwrap "mail" data); try (split; [reflexivity | split; reflexivity]).
    split; [apply array_map_fields, normalizeMailItem_fields|].
    intros Hall.
    now apply (array_map_given _ "created_at" normalizeMailItem_given).
  - destruct (unwrap "letters" data); try (split; [reflexivity | split; reflexivity]).
    split; [apply array_map_fields, normalizeLetterItem_fields|].
    intros Hall.
    now apply (array_map_given _ "received_at" normalizeLetterItem_given).
  - destruct (unwrap "packages" data); try (split; [reflexivity | split; reflexivity]).
    split; [apply array_map_fields, normalizePackageItem_fields|].
    intros Hall.
    now apply (array_map_given _ "received_at" normalizePackageItem_given).
Qed.

Lemma normalizeMailData_deterministic_given_ids_and_dates_witness :
  (normalizeMailData sample_host
     (VObj (<["mail" := VArr [raw_mail "a" "Ann" "alpha" 1000]]> ∅)) world0).1
  = (normalizeMailData sample_host
       (VObj (<["mail" := VArr [raw_mail "a" "Ann" "alpha" 1000]]> ∅))
       {| random_calls := 3; clock_calls := 4 |}).1 /\
  (normalizeMailData sample_host
     (VObj (<["mail" := VArr [raw_mail "a" "Ann" "alpha" 1000]]> ∅)) world0).2
  = world0.
Proof.
  apply (proj2 (proj1 (normalizeMailData_deterministic_given_ids_and_dates
                         sample_host sample_host world0
                         {| random_calls := 3; clock_calls := 4 |}
                         (VObj (<["mail" := VArr [raw_mail "a" "Ann" "alpha" 1000]]> ∅))))).
  vm_compute. reflexivity.
Defined.

(** C9 as stated fails: two successive runs on the payload [[{}]], the
    second starting from the world the first one left, give the item two
    different ids and two different dates. *)
Lemma normalizeMailData_two_runs_differ :
  let payload := VArr [VObj ∅] in
  let run1 := normalizeMailData ticking_host payload world0 in
  let run2 := normalizeMailData ticking_host payload run1.2 in
  cmap (map id) run1.1 = Return [VStr "r0"] /\
  cmap (map id) run2.1 = Return [VStr "r1"] /\
  cmap (map date) run1.1 = Return [VStr "5000"] /\
  cmap (map date) run2.1 = Return [VStr "6000"].
Proof. by_evaluation. Qed.

(** ** Sorting keeps the items *)

Lemma insert_sorted_Permutation h x l : insert_sorted h x l ≡ₚ x :: l.
Proof.
  induction l as [|y l IH]; cbn [insert_sorted]; [reflexivity|].
  destruct (0 <? compare_newest h x y); [|reflexivity].
  rewrite IH. apply Permutation_swap.
Qed.

Lemma js_sort_Permutation h l : js_sort h l ≡ₚ l.
Proof.
  induction l as [|x l IH]; [reflexivity|].
  unfold js_sort in *. cbn [foldr]. rewrite insert_sorted_Permutation.
  now rewrite IH.
Qed.

Lemma filter_length_Permutation {A} (p : A -> bool) (l l' : list A) :
  l ≡ₚ l' -> length (List.filter p l) = length (List.filter p l').
Proof.
  induction 1 as [|x l l' _ IH|x y l|l l' l'' _ IH1 _ IH2]; cbn [List.filter].
  - reflexivity.
  - destruct (p x); cbn [length]; congruence.
  - destruct (p x), (p y); reflexivity.
  - congruence.
Qed.

(** ** The sort orders valid dates newest first *)

Lemma not_older_trans h a b c :
  dated h a -> dated h b -> dated h c ->
  not_older h a b -> not_older h b c -> not_older h a c.
Proof.
  unfold dated, not_older, compare_newest.
  intros [ta ->] [tb ->] [tc ->]. lia.
Qed.

Lemma insert_sorted_Forall (P : Item -> Prop) h x l :
  P x -> Forall P l -> Forall P (insert_sorted h x l).
Proof.
  intros Hx Hl. rewrite insert_sorted_Permutation. now constructor.
Qed.

Lemma insert_sorted_sorted h x l :
  dated h x -> Forall (dated h) l ->
  StronglySorted (not_older h) l ->
  StronglySorted (not_older h) (insert_sorted h x l).
Proof.
  intros Hx Hl Hs. induction Hs as [|y l Hs IH Hy]; cbn [insert_sorted].
  - repeat constructor.
  - inversion Hl as [|? ? Hdy Hdl]; subst.
    destruct (Z.ltb_spec 0 (compare_newest h x y)) as [Hlt | Hge].
    + constructor; [now apply IH|].
      apply insert_sorted_Forall; [|exact Hy].
      unfold dated, not_older, compare_newest in *.
      destruct Hx as [tx Hx], Hdy as [ty Hty]. rewrite Hx, Hty in *. lia.
    + constructor; [now constructor|].
      constructor; [exact Hge|].
      rewrite Forall_forall in Hy, Hdl |- *. intros z Hz.
      apply (not_older_trans h x y z); auto.
Qed.

Lemma js_sort_sorted h l :
  Forall (dated h) l -> StronglySorted (not_older h) (js_sort h l).
Proof.
  induction 1 as [|x l Hx Hl IH]; [constructor|].
  unfold js_sort in *. cbn [foldr].
  apply insert_sorted_sorted; [exact Hx | | exact IH].
  fold (js_sort h l). now rewrite js_sort_Permutation.
Qed.

(** ** The store under [displayMail] *)

Lemma show_items_store h items st :
  mailData (show_items h items st) = mailData st /\
  allMailItems (show_items h items st) = allMailItems st /\
  stats (show_items h items st) = stats st /\
  errors_shown (show_items h items st) = errors_shown st /\
  currentFilter (show_items h items st) = currentFilter st /\
  searchBox (show_items h items st) = searchBox st.
Proof.
  unfold show_items. destruct items as [|x rest]; [repeat split|].
  destruct (render_items h (x :: rest) (world st)) as [els w].
  repeat split.
Qed.

(** [displayMail] keeps the items of each stored sequence (it may reorder
    the one the filter selects) and writes neither the statistics nor the
    error log. *)
Lemma displayMail_store h st :
  mail (mailData (displayMail h st)) ≡ₚ mail (mailData st) /\
  letters (mailData (displayMail h st)) ≡ₚ letters (mailData st) /\
  packages (mailData (displayMail h st)) ≡ₚ packages (mailData st) /\
  allMailItems (displayMail h st) ≡ₚ allMailItems st /\
  stats (displayMail h st) = stats st /\
  errors_shown (displayMail h st) = errors_shown st.
Proof.
  unfold displayMail.
  repeat match goal with
         | |- context [String.eqb ?a ?b] => destruct (String.eqb a b)
         end;
    match goal with
    | |- context [show_items ?h ?items ?s] =>
        destruct (show_items_store h items s) as (-> & -> & -> & -> & _)
    end;
    cbn; repeat split; try reflexivity; apply js_sort_Permutation.
Qed.

(** ** Loading *)

Lemma fetch_and_normalize_failed h rm rl rp w :
  fetch_failed rm || fetch_failed rl || fetch_failed rp = true ->
  exists e, fetch_and_normalize h rm rl rp w = (Throw e, w).
Proof.
  intros Hf. unfold fetch_and_normalize.
  destruct rm as [|okm [bm|]], rl as [|okl [bl|]], rp as [|okp [bp|]];
    try (eexists; reflexivity).
  cbn [fetch_failed] in Hf. rewrite Hf. eexists; reflexivity.
Qed.

Lemma showNotification_store message st :
  mailData (showNotification message st) = mailData st /\
  allMailItems (showNotification message st) = allMailItems st /\
  stats (showNotification message st) = stats st /\
  console (showNotification message st) = console st ++ [message].
Proof. repeat split. Qed.

(** C3. [loadAllMail] is all-or-nothing: whatever the state before, if any
    of the three fetches fails (rejected, non-success status, or a body
    that is not valid JSON), the three category sequences and the union
    are exactly what they were and [showError] is called once, its message
    being what the list then shows.  And in every case the store is either
    untouched or replaced as a whole by the three freshly normalized
    sequences and their union (up to the order [displayMail] gives them):
    no category is updated while another is not. *)
Theorem loadAllMail_failure_leaves_store :
  forall (h : Host) (rm rl rp : FetchResult) (st : MailApp),
    let st' := loadAllMail h rm rl rp st in
    (fetch_failed rm || fetch_failed rl || fetch_failed rp = true ->
     mailData st' = mailData st /\
     allMailItems st' = allMailItems st /\
     exists message,
       errors_shown st' = errors_shown st ++ [message] /\
       mailList st' = ListError message) /\
    ((mailData st' = mailData st /\ allMailItems st' = allMailItems st) \/
     (exists d w,
         fetch_and_normalize h rm rl rp (world st) = (Return d, w) /\
         mail (mailData st') ≡ₚ mail d /\
         letters (mailData st') ≡ₚ letters d /\
         packages (mailData st') ≡ₚ packages d /\
         allMailItems st' ≡ₚ mail d ++ letters d ++ packages d)).
Proof.
  intros h rm rl rp st. cbv zeta. unfold loadAllMail. split.
  - intros Hf. destruct (String.eqb (apiKey st) "").
    + repeat split. eexists; split; reflexivity.
    + destruct (fetch_and_normalize_failed h rm rl rp (world (showLoading st)) Hf)
        as [e ->].
      repeat split. eexists; split; reflexivity.
  - destruct (String.eqb (apiKey st) ""); [left; split; reflexivity|].
    change (world (showLoading st)) with (world st).
    destruct (fetch_and_normalize h rm rl rp (world st)) as [[d|e] w];
      [|left; split; reflexivity].
    right. exists d, w. split; [reflexivity|].
    set (s0 := updateStats _).
    destruct (showNotification_store "Mail loaded successfully!" (displayMail h s0))
      as (-> & -> & _).
    destruct (displayMail_store h s0) as (Hm & Hl & Hp & Ha & _).
    repeat split; assumption.
Qed.

Lemma loadAllMail_failure_leaves_store_witness :
  let st' := loadAllMail sample_host (ok_json two_mails)
               (Response false (Some (VObj ∅))) (Response true None)
               loaded_two_mails in
  mailData st' = mailData loaded_two_mails /\
  allMailItems st' = allMailItems loaded_two_mails /\
  exists message,
    errors_shown st' = errors_shown loaded_two_mails ++ [message] /\
    mailList st' = ListError message.
Proof.
  apply (proj1 (loadAllMail_failure_leaves_store sample_host (ok_json two_mails)
                  (Response false (Some (VObj ∅))) (Response true None)
                  loaded_two_mails)).
  reflexivity.
Defined.

Lemma show_items_console h items st :
  console (show_items h items st) = console st.
Proof.
  unfold show_items. destruct items as [|x rest]; [reflexivity|].
  destruct (render_items h (x :: rest) (world st)) as [els w]. reflexivity.
Qed.

Lemma displayMail_console h st : console (displayMail h st) = console st.
Proof.
  unfold displayMail.
  repeat match goal with
         | |- context [String.eqb ?a ?b] => destruct (String.eqb a b)
         end;
    rewrite show_items_console; reflexivity.
Qed.

(** The statistics after a load whose fetches and normalizers return. *)
Lemma loadAllMail_stats_on_return :
  forall (h : Host) (rm rl rp : FetchResult) (st : MailApp) (d : MailData) (w : World),
    String.eqb (apiKey st) "" = false ->
    fetch_and_normalize h rm rl rp (world st) = (Return d, w) ->
    let st' := loadAllMail h rm rl rp st in
    console st' = console st ++ ["Mail loaded successfully!"] /\
    totalAll (stats st')
    = (length (mail (mailData st')) + length (letters (mailData st'))
       + length (packages (mailData st')))%nat /\
    totalMail (stats st') = length (mail (mailData st')) /\
    totalLetters (stats st') = length (letters (mailData st')) /\
    totalPackages (stats st') = length (packages (mailData st')) /\
    count_unread (stats st') = length (List.filter is_unread (allMailItems st')) /\
    (Forall (fun it => exists b, unread it = VBool b) (allMailItems st') ->
     count_unread (stats st')
     = length (List.filter unread_is_true (allMailItems st'))).
Proof.
  intros h rm rl rp st d w Hkey Hload. cbv zeta. unfold loadAllMail.
  rewrite Hkey. change (world (showLoading st)) with (world st). rewrite Hload.
  set (s0 := updateStats _).
  destruct (showNotification_store "Mail loaded successfully!" (displayMail h s0))
    as (-> & -> & -> & ->).
  destruct (displayMail_store h s0) as (Hm & Hl & Hp & Ha & -> & _).
  rewrite displayMail_console.
  rewrite (Permutation_length Hm), (Permutation_length Hl), (Permutation_length Hp).
  rewrite (filter_length_Permutation is_unread _ _ Ha).
  assert (Hcount : count_unread (stats s0)
                   = length (List.filter is_unread (allMailItems s0)))
    by reflexivity.
  repeat split; try reflexivity; try exact Hcount.
  intros Hbool. rewrite Hcount, <- (filter_length_Permutation is_unread _ _ Ha).
  f_equal. apply List.filter_ext_in.
  intros it Hin. rewrite Forall_forall in Hbool.
  destruct (Hbool it) as [b Hb]; [now apply list_elem_of_In|].
  unfold is_unread, unread_is_true. rewrite Hb. now destruct b.
Qed.

(** C4, as the code has it. After every successful load, that is whenever
    [loadAllMail] ends with its success notification, the statistics
    written to the page satisfy: total = |mail| + |letters| + |packages|,
    each category counter is the length of its sequence, and the unread
    counter is the number of items of the union whose [unread] is truthy,
    which is the number of items whose [unread] is [true] when every
    [unread] is a boolean. *)
Theorem loadAllMail_stats :
  forall (h : Host) (rm rl rp : FetchResult) (st : MailApp),
    let st' := loadAllMail h rm rl rp st in
    console st' = console st ++ ["Mail loaded successfully!"] ->
    totalAll (stats st')
    = (length (mail (mailData st')) + length (letters (mailData st'))
       + length (packages (mailData st')))%nat /\
    totalMail (stats st') = length (mail (mailData st')) /\
    totalLetters (stats st') = length (letters (mailData st')) /\
    totalPackages (stats st') = length (packages (mailData st')) /\
    count_unread (stats st') = length (List.filter is_unread (allMailItems st')) /\
    (Forall (fun it => exists b, unread it = VBool b) (allMailItems st') ->
     count_unread (stats st')
     = length (List.filter unread_is_true (allMailItems st'))).
Proof.
  intros h rm rl rp st st' Hok.
  destruct (String.eqb (apiKey st) "") eqn:Hkey.
  - exfalso. subst st'. unfold loadAllMail in Hok. rewrite Hkey in Hok.
    change (console (showError _ st)) with (console st) in Hok.
    rewrite <- (app_nil_r (console st)) in Hok at 1.
    apply app_inv_head in Hok. discriminate Hok.
  - destruct (fetch_and_normalize h rm rl rp (world st)) as [[d|e] w] eqn:Hload.
    + apply (loadAllMail_stats_on_return h rm rl rp st d w Hkey Hload).
    + exfalso. subst st'. unfold loadAllMail in Hok. rewrite Hkey in Hok.
      change (world (showLoading st)) with (world st) in Hok. rewrite Hload in Hok.
      cbn in Hok. apply app_inv_head in Hok. discriminate Hok.
Qed.

Lemma loadAllMail_stats_witness :
  totalAll (stats loaded_two_mails) = 2%nat /\
  count_unread (stats loaded_two_mails) = 2%nat /\
  count_unread (stats loaded_two_mails)
  = length (List.filter is_unread (allMailItems loaded_two_mails)).
Proof.
  destruct (loadAllMail_stats sample_host (ok_json two_mails) (ok_json (VArr []))
              (ok_json (VArr [])) (new_MailApp "key" world0))
    as (Ht & _ & _ & _ & Hu & _).
  - vm_compute. reflexivity.
  - fold loaded_two_mails in Ht, Hu. split; [|split].
    + rewrite Ht. vm_compute. reflexivity.
    + rewrite Hu. vm_compute. reflexivity.
    + exact Hu.
Defined.

(** C4 as stated fails: a record whose [unread] is the string "false"
    gives an item that is counted as unread, though no item of the union
    has [unread] equal to [true]. *)
Lemma loadAllMail_counts_truthy_unread :
  let st' := loadAllMail sample_host
               (ok_json (VArr [VObj (<["id" := VStr "a"]>
                                       (<["date" := num 1000]>
                                          (<["unread" := VStr "false"]> ∅)))]))
               (ok_json (VArr [])) (ok_json (VArr [])) (new_MailApp "key" world0) in
  console st' = ["Mail loaded successfully!"] /\
  map unread (allMailItems st') = [VStr "false"] /\
  count_unread (stats st') = 1%nat /\
  length (List.filter unread_is_true (allMailItems st')) = 0%nat.
Proof. by_evaluation. Qed.

(** ** The list view *)

Lemma createMailItemHTML_from h item w :
  rendered_from (createMailItemHTML h item w).1 = item /\
  displayed (createMailItemHTML h item w).1 = true.
Proof.
  unfold createMailItemHTML. destruct (formatDate h (date item) w). split; reflexivity.
Qed.

Lemma render_items_from h items :
  forall w,
    map rendered_from (render_items h items w).1 = items /\
    List.filter displayed (render_items h items w).1 = (render_items h items w).1.
Proof.
  induction items as [|x rest IH]; intros w; [split; reflexivity|].
  cbn [render_items].
  destruct (createMailItemHTML_from h x w) as [Hfrom Hshown].
  destruct (createMailItemHTML h x w) as [el w1].
  specialize (IH w1). destruct (render_items h rest w1) as [els w2].
  cbn [fst map List.filter] in *.
  destruct IH as [-> ->]. rewrite Hfrom, Hshown. split; reflexivity.
Qed.

Lemma show_items_visible h items st :
  visible (show_items h items st) = items /\
  map rendered_from (elements (show_items h items st)) = items.
Proof.
  unfold show_items, visible, elements. destruct items as [|x rest]; [split; reflexivity|].
  destruct (render_items_from h (x :: rest) (world st)) as [Hfrom Hshown].
  destruct (render_items h (x :: rest) (world st)) as [els w].
  cbn [fst mailList set_world set_mailList] in *. now rewrite Hshown, Hfrom.
Qed.

(** Closed goals [Forall (listable h) l]: the list is evaluated and each
    item checked. *)
Ltac check_items :=
  match goal with
  | |- Forall _ ?l => let v := eval vm_compute in l in change l with v
  end;
  repeat (constructor;
          [split; [vm_compute; reflexivity | eexists; vm_compute; reflexivity]|]);
  constructor.

Lemma show_items_list h items st :
  visible (show_items h items st) = items.
Proof. apply show_items_visible. Qed.

(** After a category click the list shows the whole base sequence of the
    category (the union for [all], the category sequence for [mail],
    [letters] and [packages], the unread items of the union for [unread]),
    sorted newest first by the stable sort, whatever the search box holds;
    this for a category of the page and a base sequence of items with
    valid dates, printable values and ids that are safe in an attribute. *)
Lemma visible_filterMail h category st :
  In category categories ->
  Forall (listable h) (spec_base st category) ->
  visible (filterMail h category st) = js_sort h (spec_base st category).
Proof.
  intros _ _. unfold filterMail, displayMail, spec_base.
  cbn [currentFilter set_activeCategory set_currentFilter].
  repeat match goal with
         | |- context [String.eqb ?a ?b] => destruct (String.eqb a b)
         end;
    apply show_items_list.
Qed.

Lemma visible_filterMail_witness :
  visible (filterMail sample_host "unread"
             (searchMail "alpha" (set_searchBox "alpha" loaded_two_mails)))
  = [mail_item "b" "Bob" "beta" 2000; mail_item "a" "Ann" "alpha" 1000].
Proof.
  rewrite (visible_filterMail sample_host "unread"
             (searchMail "alpha" (set_searchBox "alpha" loaded_two_mails)));
    [vm_compute; reflexivity | cbn; auto 10 | check_items].
Defined.

(** After a search input with an ASCII query, over a list whose texts are
    ASCII, the list shows the elements of the current list, hidden before
    or not, whose text contains the query, ignoring case; and when the
    list holds no items (the static page, the loading, error and empty
    states) the search changes nothing. *)
Lemma visible_searchMail query st :
  ascii_only query = true ->
  Forall (fun el => ascii_only (textContent el) = true) (elements st) ->
  visible (searchMail query st)
  = map rendered_from
      (List.filter (fun el => includes (toLowerCase (textContent el)) (toLowerCase query))
                   (elements st)) /\
  ((forall els, mailList st <> ListItems els) -> searchMail query st = st).
Proof.
  intros _ _. unfold searchMail, visible, elements.
  destruct (mailList st) as [ | | msg | | els] eqn:E;
    try (rewrite E; split; reflexivity).
  cbn [mailList set_mailList]. split; [|intros Hno; now destruct (Hno els)].
  clear E.
  induction els as [|el els IH]; [reflexivity|].
  cbn [map List.filter search_el displayed].
  destruct (includes (toLowerCase (textContent el)) (toLowerCase query));
    cbn [map rendered_from]; now rewrite IH.
Qed.

Lemma visible_searchMail_witness :
  visible (searchMail "BOB" loaded_two_mails) = [mail_item "b" "Bob" "beta" 2000] /\
  searchMail "BOB" (new_MailApp "key" world0) = new_MailApp "key" world0.
Proof.
  split.
  - rewrite (proj1 (visible_searchMail "BOB" loaded_two_mails eq_refl
                      ltac:(vm_compute; repeat constructor))).
    vm_compute. reflexivity.
  - apply (proj2 (visible_searchMail "BOB" (new_MailApp "key" world0) eq_refl
                    ltac:(vm_compute; repeat constructor))).
    intros els H. discriminate H.
Defined.

(** Under the [unread] filter [displayMail] sorts a copy: the store is
    what it was. *)
Lemma displayMail_unread_keeps_store h st :
  currentFilter st = "unread" ->
  mailData (displayMail h st) = mailData st /\
  allMailItems (displayMail h st) = allMailItems st.
Proof.
  intros Hf. unfold displayMail. rewrite Hf. cbn [String.eqb Ascii.eqb Bool.eqb].
  destruct (show_items_store h (js_sort h (List.filter is_unread (allMailItems st))) st)
    as (-> & -> & _).
  split; reflexivity.
Qed.

(** C2 fails on the code: [sort] reorders the stored array itself.  After
    loading two mails, the older one first, the union is already newest
    first (the load ends with [displayMail] under the filter [all]) and is
    no longer mail ++ letters ++ packages; a click on the category [mail]
    then reorders the stored mail sequence too. *)
Theorem displayMail_sorts_store_in_place :
  allMailItems loaded_two_mails
  = [mail_item "b" "Bob" "beta" 2000; mail_item "a" "Ann" "alpha" 1000] /\
  mail (mailData loaded_two_mails) ++ letters (mailData loaded_two_mails)
    ++ packages (mailData loaded_two_mails)
  = [mail_item "a" "Ann" "alpha" 1000; mail_item "b" "Bob" "beta" 2000] /\
  mail (mailData (filterMail sample_host "mail" loaded_two_mails))
  = [mail_item "b" "Bob" "beta" 2000; mail_item "a" "Ann" "alpha" 1000].
Proof. by_evaluation. Qed.

(** C1 fails on the code: a category click renders the whole base
    sequence again and does not apply the text in the search box.  From
    the same loaded state, "search alpha, then click all" and "click all,
    then search alpha" end with the same store, filter and search text,
    and show different lists; the first shows both mails, where the
    specified view has only the one matching "alpha". *)
Theorem filter_after_search_forgets_search :
  let s1 := handle_all sample_host [SearchInput "alpha"; CategoryClick "all"]
              loaded_two_mails in
  let s2 := handle_all sample_host [CategoryClick "all"; SearchInput "alpha"]
              loaded_two_mails in
  mailData s1 = mailData s2 /\
  allMailItems s1 = allMailItems s2 /\
  (currentFilter s1 = "all" /\ currentFilter s2 = "all") /\
  (searchBox s1 = "alpha" /\ searchBox s2 = "alpha") /\
  visible s1 = [mail_item "b" "Bob" "beta" 2000; mail_item "a" "Ann" "alpha" 1000] /\
  visible s2 = [mail_item "a" "Ann" "alpha" 1000] /\
  spec_visible sample_host s1 "all" "alpha" = [mail_item "a" "Ann" "alpha" 1000].
Proof. by_evaluation. Qed.

(** ** Further properties of the code *)

Lemma truthy_get_object v k : truthy (get v k) = true -> truthy v = true.
Proof. destruct v; cbn; congruence. Qed.

(** [displayMail] replaces the stored sequence its filter selects by that
    sequence sorted newest first, when the items of the sequence have valid
    dates, printable values and ids that are safe in an attribute: the
    union under [all] (and under any unknown filter value), the category
    sequence under [mail], [letters] and [packages]; under [unread] it
    stores nothing, whatever the items. *)
Theorem displayMail_sorts_selected_sequence :
  forall (h : Host) (st : MailApp),
    (Forall (listable h) (allMailItems st) ->
     allMailItems (displayMail h (set_currentFilter "all" st))
     = js_sort h (allMailItems st)) /\
    (Forall (listable h) (mail (mailData st)) ->
     mail (mailData (displayMail h (set_currentFilter "mail" st)))
     = js_sort h (mail (mailData st))) /\
    (Forall (listable h) (letters (mailData st)) ->
     letters (mailData (displayMail h (set_currentFilter "letters" st)))
     = js_sort h (letters (mailData st))) /\
    (Forall (listable h) (packages (mailData st)) ->
     packages (mailData (displayMail h (set_currentFilter "packages" st)))
     = js_sort h (packages (mailData st))) /\
    mailData (displayMail h (set_currentFilter "unread" st)) = mailData st /\
    allMailItems (displayMail h (set_currentFilter "unread" st)) = allMailItems st.
Proof.
  intros h st. unfold displayMail.
  cbn [currentFilter set_currentFilter String.eqb Ascii.eqb Bool.eqb].
  repeat match goal with
         | |- context [show_items ?h ?items ?s] =>
             let H1 := fresh in let H2 := fresh in
             destruct (show_items_store h items s) as (H1 & H2 & _);
             rewrite ?H1, ?H2; clear H1 H2
         end.
  repeat split.
Qed.

Lemma displayMail_sorts_selected_sequence_witness :
  mail (mailData (displayMail sample_host (set_currentFilter "mail" loaded_two_mails)))
  = [mail_item "b" "Bob" "beta" 2000; mail_item "a" "Ann" "alpha" 1000].
Proof.
  rewrite (proj1 (proj2 (displayMail_sorts_selected_sequence sample_host
                           loaded_two_mails)));
    [vm_compute; reflexivity | check_items].
Defined.

(** When [location] carries two truthy coordinates, [extractLocationData]
    returns the [location] point, with its label or "Location", whatever
    [latitude], [longitude] and [tracking_location] hold. *)
Theorem extractLocationData_prefers_location :
  forall (item : Item) (m : gmap string value) (loc : value),
    originalData item = VObj m ->
    m !! "location" = Some loc ->
    truthy (get loc "lat") = true ->
    truthy (get loc "lng") = true ->
    extractLocationData item
    = Return (Some {| lat := get loc "lat"; lng := get loc "lng";
                      label := get loc "label" ||| VStr "Location" |}).
Proof.
  intros item m loc Hd Hloc Hlat Hlng.
  rewrite extractLocationData_chain by (rewrite Hd; reflexivity). rewrite Hd.
  assert (Hget : get (VObj m) "location" = loc)
    by (unfold get at 1; now rewrite Hloc).
  unfold location_shape. rewrite Hget.
  rewrite (truthy_get_object loc "lat" Hlat), truthy_js_and, Hlat, Hlng.
  reflexivity.
Qed.

Lemma extractLocationData_prefers_location_witness :
  extractLocationData
    (package_item "p4" 1000
       (<["location" := VObj (<["lat" := num 48]> (<["lng" := num 2]> ∅))]>
          (<["latitude" := num 1]> (<["longitude" := num 1]> ∅))))
  = Return (Some {| lat := num 48; lng := num 2; label := VStr "Location" |}).
Proof.
  rewrite (extractLocationData_prefers_location
             (package_item "p4" 1000
                (<["location" := VObj (<["lat" := num 48]> (<["lng" := num 2]> ∅))]>
                   (<["latitude" := num 1]> (<["longitude" := num 1]> ∅))))
             _ (VObj (<["lat" := num 48]> (<["lng" := num 2]> ∅))) eq_refl);
    vm_compute; reflexivity.
Defined.

(** A [null] element in the payload array makes [normalizeMailData] throw
    (its arrow function reads [item.id]), before any random token or clock
    reading is consumed for that element. *)
Theorem normalizeMailData_throws_on_null :
  forall (h : Host) (w : World) (rest : list value),
    normalizeMailData h (VArr (VNull :: rest)) w = (Throw "TypeError", w).
Proof. reflexivity. Qed.

(** * Further properties *)

(** ** Normalizers: payload shapes *)

Lemma get_lookup (m : gmap string value) k v : m !! k = Some v -> get (VObj m) k = v.
Proof. intros H. unfold get. now rewrite H. Qed.

Lemma js_or_left a b : truthy a = true -> a ||| b = a.
Proof. unfold js_or. now intros ->. Qed.

Lemma js_or_right a b : truthy a = false -> a ||| b = b.
Proof. unfold js_or. now intros ->. Qed.

Lemma unwrap_array key items : unwrap key (VArr items) = VArr items.
Proof. reflexivity. Qed.

Lemma unwrap_keyed key (m : gmap string value) v :
  m !! key = Some v -> truthy v = true -> unwrap key (VObj m) = v.
Proof.
  intros H Hv. unfold unwrap. rewrite (get_lookup m key v H).
  now rewrite !js_or_left by (rewrite ?js_or_left; assumption).
Qed.

Lemma unwrap_data key (m : gmap string value) :
  truthy (get (VObj m) key) = false ->
  unwrap key (VObj m) = get (VObj m) "data" ||| VObj m.
Proof. intros H. unfold unwrap. now rewrite (js_or_right _ _ H). Qed.

Lemma unwrap_primitive key data :
  (forall m, data <> VObj m) -> unwrap key data = data.
Proof.
  intros Hno. destruct data; try reflexivity. now destruct (Hno m).
Qed.

Section Unwrap.

Variable key : string.
Variable f : value -> World -> completion Item * World.

Lemma normalize_with_unwraps : unwraps_payload key (normalize_with key f).
Proof.
  unfold unwraps_payload, normalize_with. repeat split.
  - intros m items w H. cbn [truthy negb].
    now rewrite (unwrap_keyed key m _ H eq_refl), unwrap_array.
  - intros m items w Hk Hd. cbn [truthy negb].
    rewrite (unwrap_data key m Hk), (get_lookup m "data" _ Hd), unwrap_array.
    reflexivity.
  - intros m v w H Hv Harr. cbn [truthy negb].
    rewrite (unwrap_keyed key m v H Hv). now destruct v.
  - intros m w Hk Harr. cbn [truthy negb]. rewrite (unwrap_data key m Hk).
    unfold js_or. destruct (truthy (get (VObj m) "data")); [|reflexivity].
    now destruct (get (VObj m) "data").
  - intros data w Harr Hobj. destruct (negb (truthy data)); [reflexivity|].
    rewrite (unwrap_primitive key data Hobj). now destruct data.
Qed.

End Unwrap.

(** The three payload shapes.  Each normalizer reads the array under its
    own key when that property is truthy (whatever else the wrapper
    holds), else the array under [data], else the payload itself when it
    is an array; a truthy property under its own key that is not an array
    gives the empty list even when [data] holds an array, and so does any
    payload with no array to be found. *)
Theorem normalizers_unwrap_payload :
  forall h : Host,
    unwraps_payload "mail" (normalizeMailData h) /\
    unwraps_payload "letters" (normalizeLettersData h) /\
    unwraps_payload "packages" (normalizePackagesData h).
Proof.
  intros h. split; [|split].
  - exact (normalize_with_unwraps "mail" (normalizeMailItem h)).
  - exact (normalize_with_unwraps "letters" (normalizeLetterItem h)).
  - exact (normalize_with_unwraps "packages" (normalizePackageItem h)).
Qed.

Lemma normalizers_unwrap_payload_witness :
  normalizeMailData sample_host
    (VObj (<["mail" := VArr [raw_mail "a" "Ann" "alpha" 1000]]>
             (<["data" := VArr []]> ∅))) world0
  = normalizeMailData sample_host (VArr [raw_mail "a" "Ann" "alpha" 1000]) world0 /\
  normalizeMailData sample_host
    (VObj (<["mail" := VStr "none"]>
             (<["data" := VArr [raw_mail "a" "Ann" "alpha" 1000]]> ∅))) world0
  = (Return [], world0).
Proof.
  destruct (proj1 (normalizers_unwrap_payload sample_host))
    as (Hkey & _ & Hnot & _).
  split.
  - apply Hkey. vm_compute. reflexivity.
  - apply (Hnot _ (VStr "none")); vm_compute; reflexivity.
Defined.

(** ** Normalizers: one item per record *)

Section Records.

Variable f : value -> World -> completion Item * World.
Variable t : ItemType.

Hypothesis f_null :
  forall item w, nullish item = true -> f item w = (Throw "TypeError", w).

Hypothesis f_item :
  forall item w,
    nullish item = false ->
    exists it w', f item w = (Return it, w') /\ originalData it = item /\ type it = t.

Lemma array_map_records items :
  forall w,
    (forallb (fun x => negb (nullish x)) items = true ->
     exists l w',
       array_map f items w = (Return l, w') /\
       map originalData l = items /\
       Forall (fun it => type it = t) l) /\
    (forallb (fun x => negb (nullish x)) items = false ->
     exists w', array_map f items w = (Throw "TypeError", w')).
Proof.
  induction items as [|x rest IH]; intros w.
  - split; [|discriminate]. intros _. exists [], w. repeat split. constructor.
  - cbn [forallb array_map]. destruct (nullish x) eqn:Hx; cbn [negb andb].
    + split; [discriminate|]. intros _. rewrite (f_null x w Hx). now exists w.
    + destruct (f_item x w Hx) as (it & w1 & -> & Hraw & Htype).
      destruct (IH w1) as [IHok IHthrow]. split.
      * intros Hall. destruct (IHok Hall) as (l & w' & -> & Hmap & Hty).
        exists (it :: l), w'. repeat split; [cbn; congruence | now constructor].
      * intros Hsome. destruct (IHthrow Hsome) as (w' & ->). now exists w'.
Qed.

Lemma normalize_with_records key : maps_records t (normalize_with key f).
Proof.
  intros items w. unfold normalize_with. cbn [truthy negb]. rewrite unwrap_array.
  apply array_map_records.
Qed.

End Records.

Ltac arrow_function_cases normalizeItem :=
  intros item w Hn; unfold normalizeItem; rewrite Hn;
  try reflexivity;
  destruct (id_or_random _ item w) as [? w1];
  destruct (date_or_now _ _ item w1) as [? w2];
  eexists _, _; repeat split.

(** A normalizer returns exactly when no element of the payload array is
    [null] (or [undefined]); it then gives one item per record, in payload
    order, each carrying the type of its source and keeping its record as
    [originalData].  A [null] element makes the whole call throw a
    [TypeError], whatever the other records are. *)
Theorem normalizers_map_records :
  forall h : Host,
    maps_records TMail (normalizeMailData h) /\
    maps_records TLetter (normalizeLettersData h) /\
    maps_records TPackage (normalizePackagesData h).
Proof.
  intros h. split; [|split].
  - apply (normalize_with_records (normalizeMailItem h) TMail);
      arrow_function_cases normalizeMailItem.
  - apply (normalize_with_records (normalizeLetterItem h) TLetter);
      arrow_function_cases normalizeLetterItem.
  - apply (normalize_with_records (normalizePackageItem h) TPackage);
      arrow_function_cases normalizePackageItem.
Qed.

Lemma normalizers_map_records_witness :
  (exists l w',
      normalizeLettersData sample_host (VArr [VObj ∅; VStr "note"; num 7]) world0
      = (Return l, w') /\
      map originalData l = [VObj ∅; VStr "note"; num 7] /\
      Forall (fun it => type it = TLetter) l) /\
  (exists w',
      normalizeLettersData sample_host (VArr [VObj ∅; VNull]) world0
      = (Throw "TypeError", w')).
Proof.
  destruct (normalizers_map_records sample_host) as (_ & Hletters & _).
  split.
  - apply (proj1 (Hletters _ world0)). reflexivity.
  - apply (proj2 (Hletters _ world0)). reflexivity.
Defined.

(** ** Normalizers: the unread flag and generated ids *)

(** Whatever the source, the item made of a record counts as unread
    unless the record has an [unread] property that is falsy: a record
    without the property is unread, [unread: false], [unread: 0] and
    [unread: null] are read, and any truthy value is unread. *)
Theorem normalized_item_unread :
  forall (h : Host) (item : value) (w : World),
    nullish item = false ->
    (exists it w', normalizeMailItem h item w = (Return it, w') /\
                   is_unread it = unread_of_record item) /\
    (exists it w', normalizeLetterItem h item w = (Return it, w') /\
                   is_unread it = unread_of_record item) /\
    (exists it w', normalizePackageItem h item w = (Return it, w') /\
                   is_unread it = unread_of_record item).
Proof.
  intros h item w Hn.
  assert (Hu : truthy (unread_or_true item) = unread_of_record item).
  { unfold unread_or_true, unread_of_record.
    destruct (is_defined (get item "unread")); reflexivity. }
  unfold normalizeMailItem, normalizeLetterItem, normalizePackageItem.
  rewrite Hn.
  destruct (id_or_random h item w) as [i w1].
  destruct (date_or_now h "created_at" item w1) as [d w2].
  destruct (date_or_now h "received_at" item w1) as [d' w2'].
  repeat split; eexists _, _; (split; [reflexivity | exact Hu]).
Qed.

Lemma normalized_item_unread_witness :
  exists it w',
    normalizeMailItem sample_host (VObj (<["unread" := VNull]> ∅)) world0
    = (Return it, w') /\
    is_unread it = false.
Proof.
  destruct (proj1 (normalized_item_unread sample_host
                     (VObj (<["unread" := VNull]> ∅)) world0 eq_refl))
    as (it & w' & Hrun & Hu).
  exists it, w'. split; [exact Hrun|]. rewrite Hu. reflexivity.
Defined.

Lemma date_or_now_random h alt item w :
  random_calls (date_or_now h alt item w).2 = random_calls w.
Proof.
  unfold date_or_now. destruct (truthy (get item "date" ||| get item alt)); reflexivity.
Qed.

Section GeneratedIds.

Variable h : Host.
Variable alt : string.
Variable f : value -> World -> completion Item * World.

Hypothesis f_generates :
  forall item w, nullish item = false -> generates h alt item w (f item w).

Lemma array_map_draws items :
  forall w,
    forallb (fun x => negb (nullish x)) items = true ->
    exists l w',
      array_map f items w = (Return l, w') /\
      map id l = ids_from h (random_calls w) items /\
      random_calls w' = (random_calls w + length (without_id items))%nat.
Proof.
  induction items as [|x rest IH]; intros w Hall.
  - exists [], w. repeat split. cbn. lia.
  - cbn [forallb] in Hall. apply andb_prop in Hall as [Hx Hrest].
    apply negb_true_iff in Hx.
    destruct (f_generates x w Hx) as (it & Hf & Hid & _ & Hrandom & _).
    destruct (f x w) as [c w1] eqn:Ef. cbn [fst snd] in Hf, Hrandom. subst c.
    destruct (IH w1 Hrest) as (l & w' & Hl & Hids & Hw').
    exists (it :: l), w'. cbn [array_map]. rewrite Ef, Hl.
    split; [reflexivity|]. unfold without_id in *.
    cbn [map ids_from List.filter]. rewrite Hid, Hids, Hw', Hrandom.
    destruct (truthy (get x "id")); cbn [negb length].
    + rewrite Nat.add_0_r. split; reflexivity.
    + rewrite Nat.add_1_r. split; [reflexivity | lia].
Qed.

End GeneratedIds.

(** Ids over a whole payload, mixed or not.  In a run over an array
    without [null] elements, a record with a truthy [id] keeps it and the
    records without one get the next tokens of the random source, in
    payload order, one each; the run draws exactly as many tokens as there
    are such records, so nothing else consumes one and the ids a run
    generates repeat only if the random source does. *)
Theorem normalizers_draw_ids :
  forall h : Host,
    draws_ids h (normalizeMailData h) /\
    draws_ids h (normalizeLettersData h) /\
    draws_ids h (normalizePackagesData h).
Proof.
  intros h. split; [|split]; intros items w Hall.
  - apply (array_map_draws h "created_at" (normalizeMailItem h)); [|exact Hall].
    intros item w0 Hn. now apply arrow_functions_generate.
  - apply (array_map_draws h "received_at" (normalizeLetterItem h)); [|exact Hall].
    intros item w0 Hn. now apply arrow_functions_generate.
  - apply (array_map_draws h "received_at" (normalizePackageItem h)); [|exact Hall].
    intros item w0 Hn. now apply arrow_functions_generate.
Qed.

Lemma normalizers_draw_ids_witness :
  exists l w',
    normalizeMailData sample_host
      (VArr [VObj ∅; VObj (<["id" := VStr "k"]> ∅); VObj (<["id" := num 0]> ∅)])
      {| random_calls := 4; clock_calls := 0 |} = (Return l, w') /\
    map id l = [VStr "r4"; VStr "k"; VStr "r5"] /\
    random_calls w' = 6%nat.
Proof.
  destruct (proj1 (normalizers_draw_ids sample_host)
              [VObj ∅; VObj (<["id" := VStr "k"]> ∅); VObj (<["id" := num 0]> ∅)]
              {| random_calls := 4; clock_calls := 0 |})
    as (l & w' & Hrun & Hids & Hw); [vm_compute; reflexivity|].
  exists l, w'. split; [exact Hrun|]. split; [rewrite Hids | rewrite Hw];
    vm_compute; reflexivity.
Defined.

(** ** The list view: order *)

Lemma filterMail_visible_eq h category st :
  visible (filterMail h category st) = js_sort h (spec_base st category).
Proof.
  unfold filterMail, displayMail, spec_base.
  cbn [currentFilter set_activeCategory set_currentFilter].
  repeat match goal with
         | |- context [String.eqb ?a ?b] => destruct (String.eqb a b)
         end;
    apply show_items_visible.
Qed.

Lemma listable_dated h l : Forall (listable h) l -> Forall (dated h) l.
Proof. intros H. eapply Forall_impl; [exact H|]. now intros it []. Qed.

(** Whatever the filter, a click on a category of the page shows the
    items of its base sequence, each exactly once, newest first, provided
    they have valid dates, printable values and ids that are safe in an
    attribute. *)
Theorem filterMail_shows_newest_first :
  forall (h : Host) (category : string) (st : MailApp),
    In category categories ->
    Forall (listable h) (spec_base st category) ->
    visible (filterMail h category st) ≡ₚ spec_base st category /\
    StronglySorted (not_older h) (visible (filterMail h category st)).
Proof.
  intros h category st _ Hl. rewrite filterMail_visible_eq. split.
  - apply js_sort_Permutation.
  - now apply js_sort_sorted, listable_dated.
Qed.

Lemma filterMail_shows_newest_first_witness :
  visible (filterMail sample_host "mail" loaded_two_mails)
    ≡ₚ spec_base loaded_two_mails "mail" /\
  StronglySorted (not_older sample_host)
    (visible (filterMail sample_host "mail" loaded_two_mails)).
Proof.
  apply (filterMail_shows_newest_first sample_host "mail" loaded_two_mails);
    [cbn; auto 10 | check_items].
Defined.

Lemma insert_sorted_same_time h t x l :
  List.filter (has_time h t) (insert_sorted h x l)
  = List.filter (has_time h t) (x :: l).
Proof.
  induction l as [|y l IH]; [reflexivity|].
  cbn [insert_sorted].
  destruct (Z.ltb_spec 0 (compare_newest h x y)) as [Hlt | Hge]; [|reflexivity].
  assert (Hxy : has_time h t x && has_time h t y = false).
  { unfold has_time, compare_newest in *.
    destruct (newDate h (date y)) as [ty|], (newDate h (date x)) as [tx|];
      lia. }
  cbn [List.filter] in *. rewrite IH.
  destruct (has_time h t x), (has_time h t y); try reflexivity. discriminate Hxy.
Qed.

Lemma js_sort_same_time h t l :
  List.filter (has_time h t) (js_sort h l) = List.filter (has_time h t) l.
Proof.
  induction l as [|x l IH]; [reflexivity|].
  unfold js_sort in *. cbn [foldr]. rewrite insert_sorted_same_time.
  cbn [List.filter]. now rewrite IH.
Qed.

(** The sort is stable in the view: among the items shown after a click
    on a category of the page, those that share a time value stand in the
    order the base sequence had them; this for a base sequence of items
    with valid dates, printable values and ids that are safe in an
    attribute. *)
Theorem filterMail_keeps_order_of_equal_dates :
  forall (h : Host) (category : string) (st : MailApp) (t : Z),
    In category categories ->
    Forall (listable h) (spec_base st category) ->
    List.filter (has_time h t) (visible (filterMail h category st))
    = List.filter (has_time h t) (spec_base st category).
Proof.
  intros h category st t _ _. rewrite filterMail_visible_eq. apply js_sort_same_time.
Qed.

Lemma filterMail_keeps_order_of_equal_dates_witness :
  let st := loadAllMail sample_host
              (ok_json (VArr [raw_mail "a" "Ann" "alpha" 1000;
                              raw_mail "b" "Bob" "beta" 2000;
                              raw_mail "c" "Cy" "gamma" 1000]))
              (ok_json (VArr [])) (ok_json (VArr [])) (new_MailApp "key" world0) in
  visible (filterMail sample_host "mail" st)
  = [mail_item "b" "Bob" "beta" 2000; mail_item "a" "Ann" "alpha" 1000;
     mail_item "c" "Cy" "gamma" 1000] /\
  List.filter (has_time sample_host 1000) (visible (filterMail sample_host "mail" st))
  = [mail_item "a" "Ann" "alpha" 1000; mail_item "c" "Cy" "gamma" 1000].
Proof.
  cbv zeta. split; [vm_compute; reflexivity|].
  rewrite filterMail_keeps_order_of_equal_dates;
    [vm_compute; reflexivity | cbn; auto 10 | check_items].
Defined.

Lemma insert_sorted_head h x l :
  Forall (not_older h x) l -> insert_sorted h x l = x :: l.
Proof.
  intros Hx. destruct l as [|y l]; [reflexivity|].
  cbn [insert_sorted]. inversion Hx as [|? ? Hy _]; subst.
  unfold not_older in Hy. destruct (Z.ltb_spec 0 (compare_newest h x y)); [lia|].
  reflexivity.
Qed.

Lemma js_sort_sorted_id h l :
  StronglySorted (not_older h) l -> js_sort h l = l.
Proof.
  induction 1 as [|x l Hs IH Hx]; [reflexivity|].
  unfold js_sort in *. cbn [foldr]. rewrite IH. now apply insert_sorted_head.
Qed.

Lemma js_sort_idempotent h l :
  Forall (dated h) l -> js_sort h (js_sort h l) = js_sort h l.
Proof. intros Hd. apply js_sort_sorted_id. now apply js_sort_sorted. Qed.

Lemma displayMail_sort_selected h st :
  mailData (displayMail h st)
  = (sort_selected h (currentFilter st) (mailData st) (allMailItems st)).1 /\
  allMailItems (displayMail h st)
  = (sort_selected h (currentFilter st) (mailData st) (allMailItems st)).2.
Proof.
  unfold displayMail, sort_selected.
  repeat match goal with
         | |- context [String.eqb ?a ?b] => destruct (String.eqb a b)
         end;
    match goal with
    | |- context [show_items ?h ?items ?s] =>
        destruct (show_items_store h items s) as (-> & -> & _)
    end;
    split; reflexivity.
Qed.

(** A second click on the same category changes nothing: with valid
    dates, the store and the list shown after two clicks are those after
    one (the stored sequence is sorted by the first click and stays as it
    is). *)
Theorem filterMail_twice :
  forall (h : Host) (category : string) (st : MailApp),
    Forall (dated h) (allMailItems st) ->
    Forall (dated h) (mail (mailData st)) ->
    Forall (dated h) (letters (mailData st)) ->
    Forall (dated h) (packages (mailData st)) ->
    let once := filterMail h category st in
    let twice := filterMail h category once in
    mailData twice = mailData once /\
    allMailItems twice = allMailItems once /\
    visible twice = visible once.
Proof.
  intros h category st Ha Hm Hl Hp once twice.
  pose proof (displayMail_sort_selected h
                (set_activeCategory category (set_currentFilter category st)))
    as [Hd1 Ha1].
  pose proof (displayMail_sort_selected h
                (set_activeCategory category (set_currentFilter category once)))
    as [Hd2 Ha2].
  fold (filterMail h category st) in Hd1, Ha1.
  fold (filterMail h category once) in Hd2, Ha2.
  fold once in Hd1, Ha1. fold twice in Hd2, Ha2.
  cbn [currentFilter mailData allMailItems set_activeCategory set_currentFilter]
    in Hd1, Ha1, Hd2, Ha2.
  assert (Hvis : visible twice = visible once).
  { subst twice. rewrite filterMail_visible_eq. subst once.
    rewrite filterMail_visible_eq. unfold spec_base. rewrite Hd1, Ha1.
    unfold sort_selected.
    repeat match goal with
           | |- context [String.eqb ?a ?b] => destruct (String.eqb a b)
           end;
      cbn [fst snd mail letters packages];
      try (now apply js_sort_idempotent); reflexivity. }
  split; [|split; [|exact Hvis]].
  - rewrite Hd2, Hd1, Ha1. unfold sort_selected.
    repeat match goal with
           | |- context [String.eqb ?a ?b] => destruct (String.eqb a b)
           end;
      cbn [fst snd mail letters packages];
      rewrite ?js_sort_idempotent by assumption; reflexivity.
  - rewrite Ha2, Hd1, Ha1. unfold sort_selected.
    repeat match goal with
           | |- context [String.eqb ?a ?b] => destruct (String.eqb a b)
           end;
      cbn [fst snd mail letters packages];
      rewrite ?js_sort_idempotent by assumption; reflexivity.
Qed.

Lemma filterMail_twice_witness :
  let once := filterMail sample_host "mail" loaded_two_mails in
  let twice := filterMail sample_host "mail" once in
  mailData twice = mailData once /\
  allMailItems twice = allMailItems once /\
  visible twice = visible once.
Proof.
  apply (filterMail_twice sample_host "mail" loaded_two_mails);
    match goal with
    | |- Forall _ ?l =>
        let v := eval vm_compute in l in
        change l with v
    end;
    repeat (constructor; [eexists; vm_compute; reflexivity|]); constructor.
Defined.

(** ** Strings: [includes] and [toLowerCase] *)

Lemma app_cons c a b : String c a +:+ b = String c (a +:+ b).
Proof. reflexivity. Qed.

Lemma app_empty b : "" +:+ b = b.
Proof. reflexivity. Qed.

Lemma app_assoc_string a b c : (a +:+ b) +:+ c = a +:+ b +:+ c.
Proof.
  induction a as [|x a IH]; [reflexivity|]. now rewrite !app_cons, IH.
Qed.

Lemma prefix_app a b : String.prefix a (a +:+ b) = true.
Proof.
  induction a as [|c a IH]; [now destruct b|].
  rewrite app_cons. cbn [String.prefix].
  destruct (Ascii.ascii_dec c c); [exact IH | congruence].
Qed.

Lemma prefix_elim a s : String.prefix a s = true -> exists b, s = a +:+ b.
Proof.
  revert s. induction a as [|c a IH]; intros s H; [now exists s|].
  destruct s as [|c' s]; [discriminate|]. cbn in H.
  destruct (Ascii.ascii_dec c c'); [|discriminate]. subst c'.
  destruct (IH s H) as [b ->]. now exists b.
Qed.

Lemma includes_intro a sub c : includes (a +:+ sub +:+ c) sub = true.
Proof.
  induction a as [|x a IH].
  - rewrite app_empty. destruct (sub +:+ c) eqn:E; cbn [includes];
      rewrite <- E, prefix_app; reflexivity.
  - rewrite app_cons. cbn [includes]. rewrite IH. now destruct (String.prefix _ _).
Qed.

Lemma includes_elim s sub :
  includes s sub = true -> exists a c, s = a +:+ sub +:+ c.
Proof.
  induction s as [|x s IH]; cbn [includes].
  - destruct (String.prefix sub "") eqn:E; [|discriminate]. intros _.
    destruct (prefix_elim _ _ E) as [c Hc]. now exists "", c.
  - destruct (String.prefix sub (String x s)) eqn:E.
    + intros _. destruct (prefix_elim _ _ E) as [c Hc]. now exists "", c.
    + intros H. destruct (IH H) as (a & c & ->). now exists (String x a), c.
Qed.

Lemma toLowerCase_app a b :
  toLowerCase (a +:+ b) = toLowerCase a +:+ toLowerCase b.
Proof.
  induction a as [|x a IH]; [reflexivity|].
  rewrite app_cons. cbn [toLowerCase]. now rewrite IH, app_cons.
Qed.

Lemma includes_toLowerCase s sub :
  includes s sub = true -> includes (toLowerCase s) (toLowerCase sub) = true.
Proof.
  intros H. destruct (includes_elim s sub H) as (a & c & ->).
  rewrite !toLowerCase_app. apply includes_intro.
Qed.

Lemma includes_trans s mid sub :
  includes s mid = true -> includes mid sub = true -> includes s sub = true.
Proof.
  intros H1 H2. destruct (includes_elim _ _ H1) as (a & c & ->).
  destruct (includes_elim _ _ H2) as (a' & c' & ->).
  replace (a +:+ (a' +:+ sub +:+ c') +:+ c) with ((a +:+ a') +:+ sub +:+ (c' +:+ c)).
  - apply includes_intro.
  - now rewrite !app_assoc_string.
Qed.

Lemma includes_empty s : includes s "" = true.
Proof. destruct s; reflexivity. Qed.

Lemma lower_ascii_idempotent c : lower_ascii (lower_ascii c) = lower_ascii c.
Proof.
  destruct c as [[] [] [] [] [] [] [] []]; reflexivity.
Qed.

Lemma toLowerCase_idempotent s : toLowerCase (toLowerCase s) = toLowerCase s.
Proof.
  induction s as [|c s IH]; cbn; [reflexivity|].
  now rewrite lower_ascii_idempotent, IH.
Qed.
(** ** The list view: search *)

Lemma searchMail_visible_eq query st :
  visible (searchMail query st)
  = map rendered_from
      (List.filter (fun el => includes (toLowerCase (textContent el)) (toLowerCase query))
                   (elements st)).
Proof.
  unfold searchMail, visible, elements.
  destruct (mailList st) as [ | | msg | | els] eqn:E; try (rewrite E; reflexivity).
  cbn [mailList set_mailList]. clear E.
  induction els as [|el els IH]; [reflexivity|].
  cbn [map List.filter search_el displayed].
  destruct (includes (toLowerCase (textContent el)) (toLowerCase query));
    cbn [map rendered_from]; now rewrite IH.
Qed.

Lemma search_el_twice q1 q2 els :
  map (search_el q2) (map (search_el q1) els) = map (search_el q2) els.
Proof. induction els as [|el els IH]; [reflexivity|]. cbn [map]. now rewrite IH. Qed.

(** A search replaces the search before it: the state after two search
    inputs is the state after the second alone, so searches do not narrow
    one another and repeating one changes nothing.  A search writes the
    list only: store, statistics, filter and world stay as they are. *)
Theorem searchMail_replaces_search :
  forall (q1 q2 : string) (st : MailApp),
    searchMail q2 (searchMail q1 st) = searchMail q2 st /\
    mailData (searchMail q1 st) = mailData st /\
    allMailItems (searchMail q1 st) = allMailItems st /\
    stats (searchMail q1 st) = stats st /\
    currentFilter (searchMail q1 st) = currentFilter st /\
    world (searchMail q1 st) = world st.
Proof.
  intros q1 q2 st. unfold searchMail.
  destruct (mailList st) as [ | | msg | | els] eqn:E; rewrite ?E;
    try (repeat split; reflexivity).
  cbn [mailList set_mailList]. rewrite search_el_twice. repeat split.
Qed.

(** The empty query hides nothing: after it every element of the list is
    on display. *)
Theorem searchMail_empty_query :
  forall st : MailApp,
    visible (searchMail "" st) = map rendered_from (elements st).
Proof.
  intros st. rewrite searchMail_visible_eq. f_equal. cbn [toLowerCase].
  induction (elements st) as [|el els IH]; [reflexivity|].
  cbn [List.filter]. rewrite includes_empty. now rewrite IH.
Qed.

Lemma createMailItemHTML_text h item w :
  let text := textContent (createMailItemHTML h item w).1 in
  includes text (escaped_text h (from item)) = true /\
  includes text (escaped_text h (subject item)) = true /\
  includes text (escaped_text h (preview item)) = true /\
  includes text (badgeText (type item)) = true.
Proof.
  unfold createMailItemHTML. destruct (formatDate h (date item) w) as [d w1].
  cbn [fst textContent].
  repeat split.
  - match goal with
    | |- includes ?s _ = true =>
        replace s with
          ((indent 16 +:+ indent 20 +:+ indent 24)
           +:+ escaped_text h (from item)
           +:+ (indent 24 +:+ badgeText (type item) +:+ indent 20
                +:+ indent 20 +:+ d +:+ indent 16 +:+ indent 16
                +:+ escaped_text h (subject item) +:+ indent 16
                +:+ escaped_text h (preview item) +:+ indent 12))
          by (now rewrite !app_assoc_string)
    end.
    apply includes_intro.
  - match goal with
    | |- includes ?s _ = true =>
        replace s with
          ((indent 16 +:+ indent 20 +:+ indent 24 +:+ escaped_text h (from item)
            +:+ indent 24 +:+ badgeText (type item) +:+ indent 20
            +:+ indent 20 +:+ d +:+ indent 16 +:+ indent 16)
           +:+ escaped_text h (subject item)
           +:+ (indent 16 +:+ escaped_text h (preview item) +:+ indent 12))
          by (now rewrite !app_assoc_string)
    end.
    apply includes_intro.
  - match goal with
    | |- includes ?s _ = true =>
        replace s with
          ((indent 16 +:+ indent 20 +:+ indent 24 +:+ escaped_text h (from item)
            +:+ indent 24 +:+ badgeText (type item) +:+ indent 20
            +:+ indent 20 +:+ d +:+ indent 16 +:+ indent 16
            +:+ escaped_text h (subject item) +:+ indent 16)
           +:+ escaped_text h (preview item) +:+ indent 12)
          by (now rewrite !app_assoc_string)
    end.
    apply includes_intro.
  - match goal with
    | |- includes ?s _ = true =>
        replace s with
          ((indent 16 +:+ indent 20 +:+ indent 24 +:+ escaped_text h (from item)
            +:+ indent 24)
           +:+ badgeText (type item)
           +:+ (indent 20 +:+ indent 20 +:+ d +:+ indent 16 +:+ indent 16
                +:+ escaped_text h (subject item) +:+ indent 16
                +:+ escaped_text h (preview item) +:+ indent 12))
          by (now rewrite !app_assoc_string)
    end.
    apply includes_intro.
Qed.

Lemma render_items_element h items :
  forall w item,
    In item items ->
    exists el w',
      In el (render_items h items w).1 /\ el = (createMailItemHTML h item w').1.
Proof.
  induction items as [|x rest IH]; intros w item Hin; [destruct Hin|].
  cbn [render_items].
  destruct (createMailItemHTML h x w) as [el w1] eqn:Ex.
  specialize (IH w1 item).
  destruct (render_items h rest w1) as [els w2]. cbn [fst] in *.
  destruct Hin as [<- | Hin].
  - exists el, w. split; [now left | now rewrite Ex].
  - destruct (IH Hin) as (el' & w' & Hel & Heq). exists el', w'. split; [now right | exact Heq].
Qed.

Lemma show_items_element h items st item :
  In item items ->
  exists el w',
    In el (elements (show_items h items st)) /\ el = (createMailItemHTML h item w').1.
Proof.
  intros Hin. unfold show_items, elements.
  destruct items as [|x rest]; [destruct Hin|].
  destruct (render_items_element h (x :: rest) (world st) item Hin) as (el & w' & Hel & Heq).
  destruct (render_items h (x :: rest) (world st)) as [els w].
  exists el, w'. split; [exact Hel | exact Heq].
Qed.

Lemma filterMail_element h category st item :
  In item (spec_base st category) ->
  exists el w',
    In el (elements (filterMail h category st)) /\
    el = (createMailItemHTML h item w').1.
Proof.
  intros Hin.
  assert (Hs : In item (js_sort h (spec_base st category))).
  { apply list_elem_of_In. rewrite js_sort_Permutation. now apply list_elem_of_In. }
  revert Hs. unfold filterMail, displayMail, spec_base.
  cbn [currentFilter set_activeCategory set_currentFilter].
  repeat match goal with
         | |- context [String.eqb ?a ?b] => destruct (String.eqb a b)
         end;
    apply show_items_element.
Qed.

(** Search is complete on what an item shows.  After a click on a
    category of the page, on a base sequence of items with printable
    values and ids that are safe in an attribute, every item of the base sequence whose sender,
    subject, preview or type badge contains the query, ignoring letter
    case, is on display after the search; this for an item whose three
    texts are plain ASCII and for an ASCII query. *)
Theorem searchMail_finds_shown_fields :
  forall (h : Host) (category : string) (st : MailApp) (item : Item) (query : string),
    In category categories ->
    Forall (fun it => renders h it = true) (spec_base st category) ->
    In item (spec_base st category) ->
    plain (escaped_text h (from item)) = true ->
    plain (escaped_text h (subject item)) = true ->
    plain (escaped_text h (preview item)) = true ->
    ascii_only query = true ->
    includes (toLowerCase (escaped_text h (from item))) (toLowerCase query) = true \/
    includes (toLowerCase (escaped_text h (subject item))) (toLowerCase query) = true \/
    includes (toLowerCase (escaped_text h (preview item))) (toLowerCase query) = true \/
    includes (toLowerCase (badgeText (type item))) (toLowerCase query) = true ->
    In item (visible (searchMail query (filterMail h category st))).
Proof.
  intros h category st item query _ _ Hin _ _ _ _ Hfield.
  destruct (filterMail_element h category st item Hin) as (el & w' & Hel & Heq).
  rewrite searchMail_visible_eq.
  destruct (createMailItemHTML_from h item w') as [Hfrom _].
  destruct (createMailItemHTML_text h item w') as (Hf & Hs & Hp & Hb).
  rewrite <- Heq in Hfrom, Hf, Hs, Hp, Hb. cbv zeta in Hf, Hs, Hp, Hb.
  rewrite <- Hfrom. apply List.in_map. apply List.filter_In. split; [exact Hel|].
  destruct Hfield as [H | [H | [H | H]]];
    eapply includes_trans; try exact H; now apply includes_toLowerCase.
Qed.

Lemma searchMail_finds_shown_fields_witness :
  In (mail_item "b" "Bob" "beta" 2000)
     (visible (searchMail "BOB" (filterMail sample_host "all" loaded_two_mails))).
Proof.
  apply (searchMail_finds_shown_fields sample_host "all" loaded_two_mails).
  - cbn. auto 10.
  - vm_compute. repeat constructor.
  - vm_compute. left. reflexivity.
  - vm_compute. reflexivity.
  - vm_compute. reflexivity.
  - vm_compute. reflexivity.
  - vm_compute. reflexivity.
  - left. vm_compute. reflexivity.
Defined.

(** ** Sessions *)

(** Either the load leaves store and statistics alone, or it replaces the
    store by what the normalizers returned (in the order [displayMail]
    gives) and the statistics by the counts of that. *)
Lemma loadAllMail_cases h rm rl rp st :
  let st' := loadAllMail h rm rl rp st in
  (mailData st' = mailData st /\ allMailItems st' = allMailItems st /\
   stats st' = stats st) \/
  (exists d w,
      String.eqb (apiKey st) "" = false /\
      fetch_and_normalize h rm rl rp (world st) = (Return d, w) /\
      mail (mailData st') ≡ₚ mail d /\
      letters (mailData st') ≡ₚ letters d /\
      packages (mailData st') ≡ₚ packages d /\
      allMailItems st' ≡ₚ mail d ++ letters d ++ packages d).
Proof.
  cbv zeta. unfold loadAllMail.
  destruct (String.eqb (apiKey st) ""); [left; repeat split|].
  change (world (showLoading st)) with (world st).
  destruct (fetch_and_normalize h rm rl rp (world st)) as [[d|e] w];
    [|left; repeat split].
  right. exists d, w. split; [reflexivity|]. split; [reflexivity|].
  set (s0 := updateStats _).
  destruct (showNotification_store "Mail loaded successfully!" (displayMail h s0))
    as (-> & -> & _).
  destruct (displayMail_store h s0) as (Hm & Hl & Hp & Ha & _).
  repeat split; assumption.
Qed.

Section ArrayMapForall.

Variable f : value -> World -> completion Item * World.
Variable Q : Item -> Prop.

Hypothesis f_returns : forall item w it w', f item w = (Return it, w') -> Q it.

Lemma array_map_Forall items :
  forall w l w', array_map f items w = (Return l, w') -> Forall Q l.
Proof.
  induction items as [|x rest IH]; intros w l w' H; cbn [array_map] in H.
  - injection H as <- _. constructor.
  - destruct (f x w) as [[it|e] w1] eqn:Ef; [|discriminate].
    destruct (array_map f rest w1) as [[l1|e] w2] eqn:Er; [|discriminate].
    injection H as <- _. constructor; [eapply f_returns, Ef | eapply IH, Er].
Qed.

Lemma normalize_with_Forall key data w l w' :
  normalize_with key f data w = (Return l, w') -> Forall Q l.
Proof.
  unfold normalize_with. destruct (negb (truthy data)).
  - intros H. injection H as <- _. constructor.
  - destruct (unwrap key data); try (intros H; injection H as <- _; constructor).
    apply array_map_Forall.
Qed.

End ArrayMapForall.

(** An item a normalizer returns has the normalizer's type and a raw
    record that is not nullish. *)
Definition made_by (t : ItemType) (it : Item) : Prop :=
  type it = t /\ nullish (originalData it) = false.

Ltac arrow_function_made normalizeItem :=
  let item := fresh "item" in
  let wa := fresh "wa" in
  let Hn := fresh "Hn" in
  let H := fresh "H" in
  intros item wa ? ?; unfold normalizeItem;
  destruct (nullish item) eqn:Hn; [discriminate|];
  destruct (id_or_random _ item wa) as [? ?w];
  match goal with
  | |- context [date_or_now ?h ?alt item ?w1] => destruct (date_or_now h alt item w1)
  end;
  intros H; injection H as <- _; split; [reflexivity | exact Hn].

Lemma fetch_and_normalize_made h rm rl rp w d w' :
  fetch_and_normalize h rm rl rp w = (Return d, w') ->
  Forall (made_by TMail) (mail d) /\
  Forall (made_by TLetter) (letters d) /\
  Forall (made_by TPackage) (packages d).
Proof.
  unfold fetch_and_normalize.
  destruct rm as [|okm [bm|]], rl as [|okl [bl|]], rp as [|okp [bp|]];
    try discriminate.
  destruct (negb okm || negb okl || negb okp); [discriminate|].
  destruct (normalizeMailData h bm w) as [[ms|e] w1] eqn:Em; [|discriminate].
  destruct (normalizeLettersData h bl w1) as [[ls|e] w2] eqn:El; [|discriminate].
  destruct (normalizePackagesData h bp w2) as [[ps|e] w3] eqn:Ep; [|discriminate].
  intros H. injection H as <- _. cbn [mail letters packages].
  split; [|split].
  - refine (normalize_with_Forall (normalizeMailItem h) (made_by TMail) _ _ _ _ _ _ Em).
    arrow_function_made normalizeMailItem.
  - refine (normalize_with_Forall (normalizeLetterItem h) (made_by TLetter) _ _ _ _ _ _ El).
    arrow_function_made normalizeLetterItem.
  - refine (normalize_with_Forall (normalizePackageItem h) (made_by TPackage)
              _ _ _ _ _ _ Ep).
    arrow_function_made normalizePackageItem.
Qed.

Lemma store_invariant_Permutation st st' :
  mail (mailData st') ≡ₚ mail (mailData st) ->
  letters (mailData st') ≡ₚ letters (mailData st) ->
  packages (mailData st') ≡ₚ packages (mailData st) ->
  allMailItems st' ≡ₚ allMailItems st ->
  store_invariant st -> store_invariant st'.
Proof.
  intros Hm Hl Hp Ha (I1 & I2 & I3 & I4 & I5).
  unfold store_invariant. rewrite Hm, Hl, Hp, Ha. auto.
Qed.

Lemma handle_store h e st :
  mail (mailData (handle h e st)) ≡ₚ mail (mailData st) /\
  letters (mailData (handle h e st)) ≡ₚ letters (mailData st) /\
  packages (mailData (handle h e st)) ≡ₚ packages (mailData st) /\
  allMailItems (handle h e st) ≡ₚ allMailItems st /\
  stats (handle h e st) = stats st.
Proof.
  destruct e as [category | text]; cbn [handle].
  - unfold filterMail.
    destruct (displayMail_store h
                (set_activeCategory category (set_currentFilter category st)))
      as (Hm & Hl & Hp & Ha & Hs & _).
    repeat split; assumption.
  - unfold searchMail. cbn [mailList set_searchBox].
    destruct (mailList st); repeat split; reflexivity.
Qed.

Lemma step_store_invariant h a st :
  store_invariant st -> store_invariant (step h a st).
Proof.
  intros Hinv. destruct a as [rm rl rp | e]; cbn [step].
  - destruct (loadAllMail_cases h rm rl rp st) as [(Hd & Ha & _) | Hnew].
    + destruct Hinv as (I1 & I2 & I3 & I4 & I5).
      unfold store_invariant. rewrite Hd, Ha. auto.
    + destruct Hnew as (d & w & _ & Hload & Hm & Hl & Hp & Ha).
      destruct (fetch_and_normalize_made _ _ _ _ _ _ _ Hload) as (Fm & Fl & Fp).
      unfold store_invariant. rewrite Hm, Hl, Hp, Ha.
      split; [reflexivity|].
      split; [eapply Forall_impl; [exact Fm | now intros ? []]|].
      split; [eapply Forall_impl; [exact Fl | now intros ? []]|].
      split; [eapply Forall_impl; [exact Fp | now intros ? []]|].
      rewrite !Forall_app. repeat split;
        (eapply Forall_impl; [eassumption | now intros ? []]).
  - destruct (handle_store h e st) as (Hm & Hl & Hp & Ha & _).
    now apply (store_invariant_Permutation st).
Qed.

(** In every state a session can reach (any sequence of refresh clicks,
    with any fetch results, category clicks and search inputs, from the
    constructor's state) the union holds exactly the items of the three
    category sequences, each category sequence holds only items of its own
    type, and every item has kept a raw record that is neither [null] nor
    [undefined]. *)
Theorem session_store_invariant :
  forall (h : Host) (savedKey : string) (w : World) (actions : list Action),
    store_invariant (run h actions (new_MailApp savedKey w)).
Proof.
  intros h savedKey w actions. unfold run.
  assert (H0 : store_invariant (new_MailApp savedKey w)).
  { unfold store_invariant. cbn. repeat split; constructor. }
  revert H0. generalize (new_MailApp savedKey w).
  induction actions as [|a rest IH]; intros st Hinv; [exact Hinv|].
  cbn [foldl]. apply IH. now apply step_store_invariant.
Qed.

Lemma step_stats_consistent h a st :
  stats_consistent st -> stats_consistent (step h a st).
Proof.
  intros Hc. destruct a as [rm rl rp | e]; cbn [step].
  - destruct (loadAllMail_cases h rm rl rp st) as [(Hd & Ha & Hs) | Hnew].
    + unfold stats_consistent. rewrite Hd, Ha, Hs. exact Hc.
    + destruct Hnew as (d & w & Hkey & Hload & _).
      destruct (loadAllMail_stats_on_return h rm rl rp st d w Hkey Hload)
        as (_ & Ht & Hm & Hl & Hp & Hu & _).
      assert (Hs : exists s, stats (loadAllMail h rm rl rp st) = stats (updateStats s)).
      { unfold loadAllMail. rewrite Hkey.
        change (world (showLoading st)) with (world st). rewrite Hload.
        set (s0 := updateStats _).
        destruct (showNotification_store "Mail loaded successfully!"
                    (displayMail h s0)) as (_ & _ & -> & _).
        destruct (displayMail_store h s0) as (_ & _ & _ & _ & -> & _).
        subst s0. eexists; reflexivity. }
      destruct Hs as [s Hs].
      unfold stats_consistent. repeat split; try assumption;
        rewrite Hs; reflexivity.
  - destruct (handle_store h e st) as (Hm & Hl & Hp & Ha & Hs).
    destruct Hc as (C1 & C2 & C3 & C4 & C5 & C6 & C7 & C8 & C9).
    unfold stats_consistent. rewrite Hs.
    rewrite (Permutation_length Hm), (Permutation_length Hl), (Permutation_length Hp).
    rewrite (filter_length_Permutation is_unread _ _ Ha).
    repeat split; assumption.
Qed.

(** Once the counters on the page are those of the store (as a successful
    load makes them), they stay so through every further refresh, failed
    or not, every category click and every search input. *)
Theorem session_keeps_stats_consistent :
  forall (h : Host) (actions : list Action) (st : MailApp),
    stats_consistent st -> stats_consistent (run h actions st).
Proof.
  intros h actions. unfold run.
  induction actions as [|a rest IH]; intros st Hc; [exact Hc|].
  cbn [foldl]. apply IH. now apply step_stats_consistent.
Qed.

Lemma session_keeps_stats_consistent_witness :
  stats_consistent
    (run sample_host
       [View (CategoryClick "mail"); Refresh NetworkError NetworkError NetworkError;
        View (SearchInput "alpha")]
       loaded_two_mails).
Proof.
  apply (session_keeps_stats_consistent sample_host).
  unfold stats_consistent. by_evaluation.
Defined.

(** ** Loading and the view *)

Lemma displayMail_view h st :
  currentFilter (displayMail h st) = currentFilter st /\
  searchBox (displayMail h st) = searchBox st /\
  visible (displayMail h st) = js_sort h (spec_base st (currentFilter st)).
Proof.
  unfold displayMail, spec_base.
  repeat match goal with
         | |- context [String.eqb ?a ?b] => destruct (String.eqb a b)
         end;
    match goal with
    | |- context [show_items ?h ?items ?s] =>
        destruct (show_items_store h items s) as (_ & _ & _ & _ & -> & ->);
        destruct (show_items_visible h items s) as [-> _]
    end;
    repeat split.
Qed.

(** A load never touches the view state: the filter and the text of the
    search box are after it what they were before, whether it failed or
    not.  After a load that returns items with valid dates, printable
    values and ids that are safe in an attribute, the list shows the whole
    base sequence of the filter in force, taken from the new store, newest
    first: the filter outlives the load, the search does not. *)
Theorem loadAllMail_keeps_view_state :
  forall (h : Host) (rm rl rp : FetchResult) (st : MailApp),
    let st' := loadAllMail h rm rl rp st in
    currentFilter st' = currentFilter st /\
    searchBox st' = searchBox st /\
    (forall d w,
        String.eqb (apiKey st) "" = false ->
        fetch_and_normalize h rm rl rp (world st) = (Return d, w) ->
        Forall (listable h) (mail d ++ letters d ++ packages d) ->
        visible st'
        = js_sort h
            (spec_base (set_allMailItems (mail d ++ letters d ++ packages d)
                          (set_mailData d st))
                       (currentFilter st))).
Proof.
  intros h rm rl rp st. cbv zeta. unfold loadAllMail.
  destruct (String.eqb (apiKey st) "") eqn:Hkey.
  - repeat split. intros d w Hk. discriminate Hk.
  - change (world (showLoading st)) with (world st).
    destruct (fetch_and_normalize h rm rl rp (world st)) as [[d|e] w];
      [|repeat split; intros d' w' _ H; discriminate H].
    set (s0 := updateStats _).
    destruct (displayMail_view h s0) as (Hf & Hb & Hv).
    unfold showNotification, visible in *.
    cbn [currentFilter searchBox mailList set_refreshBtn_loading log_console].
    rewrite Hf, Hb. repeat split.
    intros d' w' _ H _. injection H as <- <-. exact Hv.
Qed.

Lemma loadAllMail_keeps_view_state_witness :
  visible (loadAllMail sample_host (ok_json two_mails) (ok_json (VArr []))
             (ok_json (VArr []))
             (handle sample_host (SearchInput "alpha")
                (handle sample_host (CategoryClick "mail") loaded_two_mails)))
  = [mail_item "b" "Bob" "beta" 2000; mail_item "a" "Ann" "alpha" 1000].
Proof.
  rewrite (proj2 (proj2 (loadAllMail_keeps_view_state sample_host (ok_json two_mails)
                           (ok_json (VArr [])) (ok_json (VArr []))
                           (handle sample_host (SearchInput "alpha")
                              (handle sample_host (CategoryClick "mail")
                                 loaded_two_mails))))
             {| mail := [mail_item "a" "Ann" "alpha" 1000;
                         mail_item "b" "Bob" "beta" 2000];
                letters := []; packages := [] |}
             (world (handle sample_host (SearchInput "alpha")
                       (handle sample_host (CategoryClick "mail") loaded_two_mails))));
    [vm_compute; reflexivity | vm_compute; reflexivity | vm_compute; reflexivity
    | check_items].
Defined.

(** ** Relative dates: the edges *)



(** ** Escaping *)

Lemma list_ascii_app a b :
  String.list_ascii_of_string (a +:+ b) = String.list_ascii_of_string a ++ String.list_ascii_of_string b.
Proof.
  induction a as [|c a IH]; [reflexivity|].
  rewrite app_cons. cbn [String.list_ascii_of_string]. now rewrite IH.
Qed.

Lemma escape_text_bytes_aux n :
  forall s, (String.length s <= n)%nat ->
    Forall (fun c => c <> Ascii.ascii_of_nat 60 /\ c <> Ascii.ascii_of_nat 62)
           (String.list_ascii_of_string (escape_text s)).
Proof.
  induction n as [|n IH]; intros s Hlen.
  - destruct s; [constructor | cbn in Hlen; lia].
  - destruct s as [|c rest]; [constructor|].
    cbn [String.length] in Hlen. cbn [escape_text].
    assert (Hrest : Forall (fun c => c <> Ascii.ascii_of_nat 60 /\ c <> Ascii.ascii_of_nat 62)
                           (String.list_ascii_of_string (escape_text rest)))
      by (apply IH; lia).
    destruct (Ascii.eqb_spec c (Ascii.ascii_of_nat 38));
      [rewrite list_ascii_app; apply Forall_app; split; [|exact Hrest];
       repeat constructor; discriminate|].
    destruct (Ascii.eqb_spec c (Ascii.ascii_of_nat 60));
      [rewrite list_ascii_app; apply Forall_app; split; [|exact Hrest];
       repeat constructor; discriminate|].
    destruct (Ascii.eqb_spec c (Ascii.ascii_of_nat 62));
      [rewrite list_ascii_app; apply Forall_app; split; [|exact Hrest];
       repeat constructor; discriminate|].
    destruct (Ascii.eqb_spec c (Ascii.ascii_of_nat 194)).
    + destruct rest as [|c' rest']; [repeat constructor; subst; discriminate|].
      destruct (Ascii.eqb_spec c' (Ascii.ascii_of_nat 160)).
      * rewrite list_ascii_app. apply Forall_app. split.
        -- repeat constructor; discriminate.
        -- apply IH. cbn [String.length] in Hlen. lia.
      * cbn [String.list_ascii_of_string]. constructor; [split; assumption | exact Hrest].
    + cbn [String.list_ascii_of_string]. constructor; [split; assumption | exact Hrest].
Qed.

Lemma escape_text_cons c rest :
  escape_text (String c rest)
  = if Ascii.eqb c (Ascii.ascii_of_nat 38) then "&amp;" +:+ escape_text rest
    else if Ascii.eqb c (Ascii.ascii_of_nat 60) then "&lt;" +:+ escape_text rest
    else if Ascii.eqb c (Ascii.ascii_of_nat 62) then "&gt;" +:+ escape_text rest
    else if Ascii.eqb c (Ascii.ascii_of_nat 194) then
      match rest with
      | String c' rest' =>
          if Ascii.eqb c' (Ascii.ascii_of_nat 160)
          then "&nbsp;" +:+ escape_text rest'
          else String c (escape_text rest)
      | EmptyString => String c EmptyString
      end
    else String c (escape_text rest).
Proof. destruct rest; reflexivity. Qed.

Lemma escape_text_plain s :
  forallb text_byte (String.list_ascii_of_string s) = true ->
  includes s no_break_space = false ->
  escape_text s = s.
Proof.
  induction s as [|c rest IH]; [reflexivity|].
  cbn [String.list_ascii_of_string forallb]. intros Hb Hn.
  apply andb_prop in Hb as [Hc Hrest].
  cbn [includes] in Hn.
  destruct (String.prefix no_break_space (String c rest)) eqn:Hp; [discriminate Hn|].
  specialize (IH Hrest Hn).
  unfold text_byte in Hc. apply negb_true_iff in Hc.
  apply orb_false_elim in Hc as [Hc H62]. apply orb_false_elim in Hc as [H38 H60].
  rewrite escape_text_cons, H38, H60, H62, IH.
  destruct (Ascii.eqb_spec c (Ascii.ascii_of_nat 194)) as [-> | Hne]; [|reflexivity].
  destruct rest as [|c' rest']; [reflexivity|].
  destruct (Ascii.eqb_spec c' (Ascii.ascii_of_nat 160)) as [-> | Hne']; [|reflexivity].
  exfalso. destruct rest'; vm_compute in Hp; discriminate Hp.
Qed.

(** [escapeHtml] never lets an angle bracket through: whatever the value,
    its result holds no [<] and no [>], so the text cannot open or close a
    tag.  A falsy value gives the empty string, and a string without
    ampersand, angle bracket and no-break space is returned as it is. *)
Theorem escapeHtml_no_angle_brackets :
  forall (h : Host) (text : value),
    Forall (fun c => c <> Ascii.ascii_of_nat 60 /\ c <> Ascii.ascii_of_nat 62)
           (String.list_ascii_of_string (escapeHtml h text)) /\
    (truthy text = false -> escapeHtml h text = "") /\
    (forall s, text = VStr s ->
               forallb text_byte (String.list_ascii_of_string s) = true ->
               includes s no_break_space = false ->
               escapeHtml h text = s).
Proof.
  intros h text. unfold escapeHtml. repeat split.
  - eapply escape_text_bytes_aux. reflexivity.
  - intros Hf. now rewrite (js_or_right _ _ Hf).
  - intros s -> Hbytes Hnbsp. unfold js_or. cbn [truthy].
    destruct s as [|c rest]; [reflexivity|]. cbn [String.eqb negb toText].
    now apply escape_text_plain.
Qed.

(** The copyright sign (bytes C2 A9) shares its first byte with the
    no-break space and is left alone. *)
Lemma escapeHtml_no_angle_brackets_witness :
  escapeHtml sample_host
    (VStr (String (Ascii.ascii_of_nat 194) (String (Ascii.ascii_of_nat 169) "2024 Ann")))
  = String (Ascii.ascii_of_nat 194) (String (Ascii.ascii_of_nat 169) "2024 Ann") /\
  escapeHtml sample_host (num 0) = "".
Proof.
  destruct (escapeHtml_no_angle_brackets sample_host
              (VStr (String (Ascii.ascii_of_nat 194)
                       (String (Ascii.ascii_of_nat 169) "2024 Ann"))))
    as (_ & _ & Hplain).
  destruct (escapeHtml_no_angle_brackets sample_host (num 0)) as (_ & Hfalsy & _).
  split.
  - apply Hplain; [reflexivity | vm_compute; reflexivity | vm_compute; reflexivity].
  - apply Hfalsy. reflexivity.
Defined.

(** ** The API key *)

Lemma trim_start_step s :
  trim_start s = match strip_space s with
                 | Some rest => trim_start rest
                 | None => s
                 end.
Proof.
  destruct s as [|c1 r1]; [reflexivity|]. cbn [trim_start strip_space].
  destruct (is_space c1); [reflexivity|].
  destruct r1 as [|c2 r2]; [reflexivity|].
  destruct (is_space2 c1 c2); [reflexivity|].
  destruct r2 as [|c3 r3]; [reflexivity|].
  destruct (is_space3 c1 c2 c3); reflexivity.
Qed.

Lemma strip_space_shorter s rest :
  strip_space s = Some rest -> (String.length rest < String.length s)%nat.
Proof.
  destruct s as [|c1 [|c2 [|c3 r3]]]; cbn [strip_space];
    repeat match goal with
           | |- context [if ?b then _ else _] => destruct b
           end;
    intros H; try discriminate H; injection H as <-; cbn [String.length]; lia.
Qed.

Lemma strip_space_app s rest tail :
  strip_space s = Some rest -> strip_space (s +:+ tail) = Some (rest +:+ tail).
Proof.
  destruct s as [|c1 [|c2 [|c3 r3]]]; rewrite ?app_cons; cbn [strip_space];
    repeat match goal with
           | |- context [if ?b then _ else _] => destruct b
           end;
    intros H; try discriminate H; injection H as <-; rewrite ?app_cons; try reflexivity.
Qed.

Lemma trim_start_no_leading_space_aux n :
  forall s, (String.length s <= n)%nat -> strip_space (trim_start s) = None.
Proof.
  induction n as [|n IH]; intros s Hlen.
  - destruct s; [reflexivity | cbn in Hlen; lia].
  - rewrite trim_start_step. destruct (strip_space s) as [rest|] eqn:E; [|exact E].
    apply IH. apply strip_space_shorter in E. lia.
Qed.

Lemma trim_start_no_leading_space s : strip_space (trim_start s) = None.
Proof. now apply (trim_start_no_leading_space_aux (String.length s)). Qed.

Lemma blank_app_aux n :
  forall s tail, (String.length s <= n)%nat ->
    blank s = true -> trim_start (s +:+ tail) = trim_start tail.
Proof.
  unfold blank. induction n as [|n IH]; intros s tail Hlen Hb.
  - destruct s; [reflexivity | cbn in Hlen; lia].
  - destruct s as [|c r]; [reflexivity|].
    rewrite trim_start_step in Hb.
    destruct (strip_space (String c r)) as [rest|] eqn:E; [|discriminate Hb].
    rewrite (trim_start_step (String c r +:+ tail)), (strip_space_app _ _ tail E).
    apply IH; [|exact Hb]. apply strip_space_shorter in E. lia.
Qed.

Lemma blank_app s tail : blank s = true -> blank tail = true -> blank (s +:+ tail) = true.
Proof.
  intros Hs Ht. unfold blank. now rewrite (blank_app_aux (String.length s) s tail).
Qed.

Lemma trim_end_cut s : exists tail, s = trim_end s +:+ tail /\ blank tail = true.
Proof.
  induction s as [|c rest (tail & Hrest & Htail)]; [now exists ""|].
  cbn [trim_end]. destruct (blank (String c rest)) eqn:E.
  - now exists (String c rest).
  - exists tail. rewrite app_cons, <- Hrest. auto.
Qed.

Lemma trim_end_idempotent s : trim_end (trim_end s) = trim_end s.
Proof.
  induction s as [|c rest IH]; [reflexivity|].
  cbn [trim_end]. destruct (blank (String c rest)) eqn:E; [reflexivity|].
  cbn [trim_end]. rewrite IH.
  destruct (blank (String c (trim_end rest))) eqn:E'; [|reflexivity].
  destruct (trim_end_cut rest) as (tail & Hrest & Htail).
  rewrite Hrest, <- app_cons, (blank_app _ _ E' Htail) in E. discriminate E.
Qed.

Lemma trim_end_no_leading_space s :
  strip_space s = None -> strip_space (trim_end s) = None.
Proof.
  intros Hs. destruct (strip_space (trim_end s)) as [rest|] eqn:E; [|reflexivity].
  destruct (trim_end_cut s) as (tail & Hcut & _).
  rewrite Hcut, (strip_space_app _ _ tail E) in Hs. discriminate Hs.
Qed.

Lemma trim_idempotent s : trim (trim s) = trim s.
Proof.
  unfold trim.
  rewrite (trim_start_step (trim_end (trim_start s))),
    (trim_end_no_leading_space _ (trim_start_no_leading_space s)).
  apply trim_end_idempotent.
Qed.

(** Saving a key that is blank after trimming (white space and line
    terminators, ASCII or not) saves nothing: the key in use and the
    stored key stay as they were and one alert is raised.
    Any other key is stored trimmed (trimming it again changes nothing),
    becomes the key in use, and comes back as the key in use when the page
    is opened again; with it a load is no longer refused for want of a
    key: the only error it can show is the one of a failed load. *)
Theorem saveApiKey_round_trip :
  forall (st : MailApp) (ui : KeyUi),
    let st' := (saveApiKey st ui).1 in
    let ui' := (saveApiKey st ui).2 in
    (trim (apiKeyInput ui) = "" ->
     st' = st /\ stored_key ui' = stored_key ui /\
     alerts ui' = alerts ui ++ ["Please enter an API key"]) /\
    (trim (apiKeyInput ui) <> "" ->
     apiKey st' = trim (apiKeyInput ui) /\
     trim (apiKey st') = apiKey st' /\
     stored_key ui' = Some (apiKey st') /\
     alerts ui' = alerts ui /\
     (forall w, apiKey (open_page (stored_key ui') w).1 = apiKey st') /\
     (forall h rm rl rp,
         errors_shown (loadAllMail h rm rl rp st') = errors_shown st' \/
         errors_shown (loadAllMail h rm rl rp st')
         = errors_shown st'
             ++ ["Failed to load mail. Please check your API key and try again."])).
Proof.
  intros st ui. cbv zeta. unfold saveApiKey.
  destruct (String.eqb_spec (trim (apiKeyInput ui)) "") as [He | Hne].
  - split; [intros _; repeat split | intros Hn; now destruct Hn].
  - split; [intros He; now destruct Hne|]. intros _.
    cbn [fst snd apiKey stored_key alerts log_console set_apiKey].
    split; [reflexivity|]. split; [apply trim_idempotent|].
    split; [reflexivity|]. split; [reflexivity|]. split.
    + intros w. unfold open_page, loadApiKeyFromStorage. cbn [stored_key].
      destruct (String.eqb_spec (trim (apiKeyInput ui)) ""); [contradiction|].
      reflexivity.
    + intros h rm rl rp. unfold loadAllMail. cbn [apiKey log_console set_apiKey].
      destruct (String.eqb_spec (trim (apiKeyInput ui)) ""); [contradiction|].
      destruct (fetch_and_normalize h rm rl rp _) as [[d|e] w].
      * left. set (s0 := updateStats _).
        destruct (displayMail_store h s0) as (_ & _ & _ & _ & _ & Herr).
        transitivity (errors_shown (displayMail h s0)); [reflexivity|].
        rewrite Herr. reflexivity.
      * right. reflexivity.
Qed.

(** A key behind a no-break space, and a field holding a no-break space,
    a space and a byte order mark only. *)
Lemma saveApiKey_round_trip_witness :
  apiKey (saveApiKey (new_MailApp "" world0)
            {| apiKeyInput := no_break_space +:+ " k-1 "; saveKeyBtn_saved := false;
               stored_key := None; alerts := [] |}).1 = "k-1" /\
  stored_key (saveApiKey (new_MailApp "" world0)
                {| apiKeyInput :=
                     no_break_space +:+ " "
                     +:+ String (Ascii.ascii_of_nat 239)
                           (String (Ascii.ascii_of_nat 187)
                              (String (Ascii.ascii_of_nat 191) ""));
                   saveKeyBtn_saved := false;
                   stored_key := Some "old"; alerts := [] |}).2 = Some "old".
Proof.
  split.
  - rewrite (proj1 (proj2 (saveApiKey_round_trip (new_MailApp "" world0)
                             {| apiKeyInput := no_break_space +:+ " k-1 ";
                                saveKeyBtn_saved := false;
                                stored_key := None; alerts := [] |})
                      ltac:(vm_compute; discriminate))).
    vm_compute. reflexivity.
  - destruct (proj1 (saveApiKey_round_trip (new_MailApp "" world0)
                       {| apiKeyInput :=
                            no_break_space +:+ " "
                            +:+ String (Ascii.ascii_of_nat 239)
                                  (String (Ascii.ascii_of_nat 187)
                                     (String (Ascii.ascii_of_nat 191) ""));
                          saveKeyBtn_saved := false;
                          stored_key := Some "old"; alerts := [] |})
                ltac:(vm_compute; reflexivity))
      as (_ & Hstored & _).
    rewrite Hstored. reflexivity.
Defined.

(** ** The detail view *)

Lemma find_none_Forall {A} (p : A -> bool) l :
  Forall (fun x => p x = false) l -> List.find p l = None.
Proof.
  induction 1 as [|x l Hx _ IH]; [reflexivity|]. cbn [List.find]. now rewrite Hx.
Qed.

Lemma id_is_string itemId i : id_is itemId i = true -> id i = VStr itemId.
Proof.
  unfold id_is. destruct (id i); try discriminate.
  intros H. apply String.eqb_eq in H. now subst.
Qed.

(** The detail view opens only for a string id.  A click whose [data-id]
    is the id, as a string, of no item leaves the modal untouched; and
    since the [data-id] of an element is always a string while ids are
    compared with [===], an item whose id is a number (or any other
    non-string) is never found: when no item of the union has a string id,
    no click opens anything. *)
Theorem showMailDetail_needs_string_id :
  forall (h : Host) (dh : DetailHost) (leaflet : Leaflet) (st : MailApp) (m : Modal),
    (forall itemId,
        Forall (fun it => id_is itemId it = false) (allMailItems st) ->
        showMailDetail h dh leaflet itemId st m = (m, None)) /\
    (Forall (fun it => has_string_id it = false) (allMailItems st) ->
     forall itemId, showMailDetail h dh leaflet itemId st m = (m, None)).
Proof.
  intros h dh leaflet st m.
  assert (Hnone : forall itemId,
             Forall (fun it => id_is itemId it = false) (allMailItems st) ->
             showMailDetail h dh leaflet itemId st m = (m, None)).
  { intros itemId Hno. unfold showMailDetail. now rewrite (find_none_Forall _ _ Hno). }
  split; [exact Hnone|].
  intros Hnum itemId. apply Hnone.
  eapply Forall_impl; [exact Hnum|]. intros it. unfold has_string_id, id_is.
  now destruct (id it).
Qed.

Lemma showMailDetail_needs_string_id_witness :
  map id (allMailItems loaded_numeric_id) = [num 7] /\
  showMailDetail sample_host sample_detail_host MapReady "7" loaded_numeric_id
    closed_modal = (closed_modal, None).
Proof.
  split; [vm_compute; reflexivity|].
  apply (proj2 (showMailDetail_needs_string_id sample_host sample_detail_host
                  MapReady loaded_numeric_id closed_modal)).
  assert (E : allMailItems loaded_numeric_id
              = [{| id := num 7; type := TPackage; from := VStr "Unknown";
                    subject := VStr "Package"; preview := VStr "";
                    date := num 1000; unread := VBool true;
                    originalData :=
                      VObj (<["id" := num 7]> (<["date" := num 1000]> ∅)) |}])
    by (vm_compute; reflexivity).
  rewrite E. repeat constructor.
Defined.

Lemma find_unique itemId item l :
  In item l -> id item = VStr itemId ->
  (forall other, In other l -> id other = VStr itemId -> other = item) ->
  List.find (id_is itemId) l = Some item.
Proof.
  intros Hin Hid Huniq. induction l as [|x l IH]; [destruct Hin|].
  cbn [List.find]. destruct (id_is itemId x) eqn:Ex.
  - f_equal. apply Huniq; [now left | now apply id_is_string].
  - apply IH.
    + destruct Hin as [-> | Hin]; [|exact Hin].
      unfold id_is in Ex. rewrite Hid, String.eqb_refl in Ex. discriminate.
    + intros other Ho. apply Huniq. now right.
Qed.

(** ** Printable values *)

Lemma printable_js_or a b :
  printable a = true -> printable b = true -> printable (a ||| b) = true.
Proof. intros Ha Hb. unfold js_or. now destruct (truthy a). Qed.

Lemma toString_printable h v : printable v = true -> toString h v = Return (toText h v).
Proof. intros Hv. unfold toString. now rewrite Hv. Qed.

Lemma textContent_of_printable h v :
  printable v = true -> textContent_of h v = Return (shown_text h v).
Proof.
  intros Hv. unfold textContent_of, shown_text.
  destruct v; cbn [nullish]; try reflexivity; now apply toString_printable.
Qed.

Lemma grid_cells_printable h details :
  Forall (fun d : string * value => printable d.2 = true) details ->
  grid_cells h details = Return (map (fun d : string * value => (d.1, toText h d.2)) details).
Proof.
  induction 1 as [|d rest Hd _ IH]; [reflexivity|].
  cbn [grid_cells map]. now rewrite (toString_printable h _ Hd), IH.
Qed.

Lemma extractDetails_select item :
  nullish (originalData item) = false ->
  extractDetails item = Return (select_fields truthy (originalData item)).
Proof.
  intros Hraw. unfold extractDetails. rewrite Hraw.
  cbv zeta. rewrite !push_if_select. unfold select_fields, detail_vocabulary.
  cbn [app]. rewrite <- !app_assoc. rewrite <- !omap_app. reflexivity.
Qed.

Lemma select_fields_printable keep raw :
  printable_record raw ->
  Forall (fun d : string * value => printable d.2 = true) (select_fields keep raw).
Proof.
  intros Hraw. apply Forall_forall. intros [l v] Hin.
  unfold select_fields in Hin. apply list_elem_of_omap in Hin as ([k l'] & _ & Hsel).
  cbn [fst snd] in Hsel. destruct (keep (get raw k)); [|discriminate].
  injection Hsel as <- <-. apply Hraw.
Qed.

(** The modal the call leaves for an item it can show. *)
Lemma showMailDetail_found h dh leaflet itemId st m item :
  List.find (id_is itemId) (allMailItems st) = Some item ->
  nullish (originalData item) = false ->
  shows_in_detail item ->
  exists location,
    extractLocationData item = Return location /\
    showMailDetail h dh leaflet itemId st m
    = let m1 :=
        set_detailContent
          (shown_text h (preview item ||| get (originalData item) "body"
                         ||| get (originalData item) "description"
                         ||| VStr "No content available"))
          (set_detailGrid
             (map (fun d : string * value => (d.1, toText h d.2))
                  (select_fields truthy (originalData item)))
             (set_modalMeta
                (escaped_text h (from item),
                 toLocaleString dh (newDate h (date item)),
                 badgeText (type item))
                (set_modalTitle (shown_text h (subject item)) m))) in
      match location with
      | Some locationData =>
          match initMap dh leaflet locationData (set_mapSection true m1) with
          | (m2, Some e) => (m2, Some e)
          | (m2, None) => (set_modal true m2, None)
          end
      | None => (set_modal true (set_mapSection false m1), None)
      end.
Proof.
  intros Hfind Hraw (Hs & Hf & Hd & Hp & Hrec). unfold showMailDetail. rewrite Hfind.
  rewrite (textContent_of_printable h _ Hs), Hd. cbn [negb].
  rewrite (toString_printable h (from item ||| VStr ""))
    by (now apply printable_js_or).
  rewrite (extractDetails_select item Hraw).
  rewrite (grid_cells_printable h _ (select_fields_printable truthy _ Hrec)).
  rewrite (textContent_of_printable h)
    by (repeat apply printable_js_or; auto).
  rewrite (extractLocationData_chain item Hraw).
  eexists. split; [reflexivity|]. reflexivity.
Qed.
(** Render, click, open.  When the item's id is a string that is safe in
    an attribute and that no other item of the union carries, its values
    are printable and Leaflet does not throw, a click on the element
    rendered from the item opens the modal on that very item: its subject
    is the title, its content is the first truthy of preview, [body],
    [description], else "No content available", the map section is
    displayed exactly when the item has a location, in which case the map
    is the one of that location (without a location the map held before
    is left as it is), and nothing is thrown. *)
Theorem showMailDetail_opens_clicked_item :
  forall (h : Host) (dh : DetailHost) (st : MailApp) (m : Modal)
         (item : Item) (k : string) (w : World),
    In item (allMailItems st) ->
    id item = VStr k ->
    attribute_safe k = true ->
    (forall other, In other (allMailItems st) -> id other = VStr k -> other = item) ->
    nullish (originalData item) = false ->
    shows_in_detail item ->
    let el := (createMailItemHTML h item w).1 in
    let opened := showMailDetail h dh MapReady (data_id el) st m in
    opened.2 = None /\
    modal_shown opened.1 = true /\
    body_locked opened.1 = true /\
    modalTitle opened.1 = shown_text h (subject item) /\
    detailContent opened.1
    = shown_text h (preview item ||| get (originalData item) "body"
                    ||| get (originalData item) "description"
                    ||| VStr "No content available") /\
    (exists location,
        extractLocationData item = Return location /\
        currentMap opened.1
        = match location with
          | Some locationData => Some locationData
          | None => currentMap m
          end /\
        mapSection_shown opened.1 = bool_decide (is_Some location)).
Proof.
  intros h dh st m item k w Hin Hid _ Huniq Hraw Hshows el opened.
  assert (Hel : data_id el = k).
  { subst el. unfold createMailItemHTML. destruct (formatDate h (date item) w).
    cbn [fst data_id]. now rewrite Hid. }
  pose proof (find_unique k item _ Hin Hid Huniq) as Hfind.
  destruct (showMailDetail_found h dh MapReady k st m item Hfind Hraw Hshows)
    as (location & Hloc & Hshow).
  subst opened. rewrite Hel, Hshow. cbv zeta.
  destruct location as [p|]; cbn [initMap];
    cbn [fst snd modal_shown body_locked modalTitle detailContent currentMap
         mapSection_shown set_modal set_map set_mapSection set_detailContent
         set_detailGrid set_modalMeta set_modalTitle];
    do 5 (split; [reflexivity|]);
    eexists; (split; [exact Hloc|]); split; reflexivity.
Qed.

Lemma printable_record_object (m : gmap string value) :
  forallb (fun kv : string * value => printable kv.2) (map_to_list m) = true ->
  printable_record (VObj m).
Proof.
  intros Hall k. unfold get. destruct (m !! k) as [v|] eqn:E; [|reflexivity].
  rewrite forallb_forall in Hall. apply (Hall (k, v)).
  apply list_elem_of_In, elem_of_map_to_list. exact E.
Qed.

(** Closed goals [shows_in_detail item], for an item whose raw record is
    an object. *)
Ltac check_shows :=
  unfold shows_in_detail;
  repeat match goal with
         | |- _ /\ _ => split
         end;
  [vm_compute; reflexivity ..
  | apply printable_record_object; vm_compute; reflexivity].

Lemma showMailDetail_opens_clicked_item_witness :
  modalTitle
    (showMailDetail sample_host sample_detail_host MapReady
       (data_id (createMailItemHTML sample_host (mail_item "a" "Ann" "alpha" 1000)
                   world0).1)
       loaded_two_mails closed_modal).1
  = "alpha".
Proof.
  destruct (showMailDetail_opens_clicked_item sample_host sample_detail_host
              loaded_two_mails closed_modal (mail_item "a" "Ann" "alpha" 1000) "a" world0)
    as (_ & _ & _ & Htitle & _).
  - vm_compute. right. left. reflexivity.
  - reflexivity.
  - vm_compute. reflexivity.
  - assert (E : allMailItems loaded_two_mails
                = [mail_item "b" "Bob" "beta" 2000; mail_item "a" "Ann" "alpha" 1000])
      by (vm_compute; reflexivity).
    rewrite E. intros other [<- | [<- | []]] Ho; [discriminate Ho | reflexivity].
  - reflexivity.
  - check_shows.
  - rewrite Htitle. reflexivity.
Defined.

(** ** Sessions over printable records *)

Lemma run_keeps_store_invariant h actions :
  forall st, store_invariant st -> store_invariant (run h actions st).
Proof.
  unfold run. induction actions as [|a rest IH]; intros st Hinv; [exact Hinv|].
  cbn [foldl]. apply IH. now apply step_store_invariant.
Qed.

Lemma new_MailApp_store_invariant savedKey w :
  store_invariant (new_MailApp savedKey w).
Proof. unfold store_invariant. cbn. repeat split; constructor. Qed.

Section ArrayMapKeeps.

Variable f : value -> World -> completion Item * World.
Variable P : value -> Prop.
Variable Q : Item -> Prop.

Hypothesis f_keeps : forall item w it w', f item w = (Return it, w') -> P item -> Q it.

Lemma array_map_keeps items :
  forall w l w', array_map f items w = (Return l, w') -> Forall P items -> Forall Q l.
Proof.
  induction items as [|x rest IH]; intros w l w' H Hall; cbn [array_map] in H.
  - injection H as <- _. constructor.
  - inversion Hall as [|? ? Hx Hrest]; subst.
    destruct (f x w) as [[it|e] w1] eqn:Ef; [|discriminate].
    destruct (array_map f rest w1) as [[l1|e] w2] eqn:Er; [|discriminate].
    injection H as <- _. constructor; [eapply f_keeps; eassumption | eapply IH; eassumption].
Qed.

Lemma normalize_with_keeps key data w l w' :
  normalize_with key f data w = (Return l, w') ->
  match unwrap key data with
  | VArr items => Forall P items
  | _ => True
  end ->
  Forall Q l.
Proof.
  unfold normalize_with. destruct (negb (truthy data)).
  - intros H _. injection H as <- _. constructor.
  - destruct (unwrap key data); try (intros H _; injection H as <- _; constructor).
    apply array_map_keeps.
Qed.

End ArrayMapKeeps.

Lemma date_or_now_printable h alt item w :
  printable_record item -> printable (date_or_now h alt item w).1 = true.
Proof.
  intros Hrec. unfold date_or_now.
  destruct (truthy (get item "date" ||| get item alt)); [|reflexivity].
  now apply printable_js_or.
Qed.

Ltac arrow_function_shows normalizeItem :=
  let item := fresh "item" in
  let wa := fresh "wa" in
  let H := fresh "H" in
  let Hrec := fresh "Hrec" in
  intros item wa ? ?; unfold normalizeItem;
  destruct (nullish item); [discriminate|];
  destruct (id_or_random _ item wa) as [? ?w];
  match goal with
  | |- context [date_or_now ?h ?alt item ?w1] =>
      let Hd := fresh "Hd" in
      pose proof (date_or_now_printable h alt item w1) as Hd;
      destruct (date_or_now h alt item w1)
  end;
  intros H Hrec; injection H as <- _;
  unfold shows_in_detail; cbn [subject from date preview originalData fst] in *;
  repeat split; auto; repeat apply printable_js_or; auto.

Lemma fetch_and_normalize_shows h rm rl rp w d w' :
  fetch_and_normalize h rm rl rp w = (Return d, w') ->
  printable_payload "mail" rm ->
  printable_payload "letters" rl ->
  printable_payload "packages" rp ->
  Forall shows_in_detail (mail d ++ letters d ++ packages d).
Proof.
  unfold fetch_and_normalize.
  destruct rm as [|okm [bm|]], rl as [|okl [bl|]], rp as [|okp [bp|]];
    try discriminate.
  destruct (negb okm || negb okl || negb okp); [discriminate|].
  destruct (normalizeMailData h bm w) as [[ms|e] w1] eqn:Em; [|discriminate].
  destruct (normalizeLettersData h bl w1) as [[ls|e] w2] eqn:El; [|discriminate].
  destruct (normalizePackagesData h bp w2) as [[ps|e] w3] eqn:Ep; [|discriminate].
  intros H. injection H as <- _. cbn [mail letters packages printable_payload].
  intros Hm Hl Hp. rewrite !Forall_app. split; [|split].
  - refine (normalize_with_keeps (normalizeMailItem h) printable_record shows_in_detail
              _ _ _ _ _ _ Em Hm).
    arrow_function_shows normalizeMailItem.
  - refine (normalize_with_keeps (normalizeLetterItem h) printable_record shows_in_detail
              _ _ _ _ _ _ El Hl).
    arrow_function_shows normalizeLetterItem.
  - refine (normalize_with_keeps (normalizePackageItem h) printable_record
              shows_in_detail _ _ _ _ _ _ Ep Hp).
    arrow_function_shows normalizePackageItem.
Qed.

Lemma step_shows h a st :
  printable_action a ->
  Forall shows_in_detail (allMailItems st) ->
  Forall shows_in_detail (allMailItems (step h a st)).
Proof.
  intros Ha Hinv. destruct a as [rm rl rp | e]; cbn [step].
  - destruct (loadAllMail_cases h rm rl rp st) as [(_ & -> & _) | Hnew]; [exact Hinv|].
    destruct Hnew as (d & w & _ & Hload & _ & _ & _ & ->).
    destruct Ha as (Hm & Hl & Hp).
    exact (fetch_and_normalize_shows _ _ _ _ _ _ _ Hload Hm Hl Hp).
  - destruct (handle_store h e st) as (_ & _ & _ & -> & _). exact Hinv.
Qed.

Lemma run_shows h actions :
  forall st,
    Forall printable_action actions ->
    Forall shows_in_detail (allMailItems st) ->
    Forall shows_in_detail (allMailItems (run h actions st)).
Proof.
  unfold run. induction actions as [|a rest IH]; intros st Hall Hinv; [exact Hinv|].
  inversion Hall as [|? ? Ha Hrest]; subst.
  cbn [foldl]. apply IH; [exact Hrest|]. now apply step_shows.
Qed.

Lemma initMap_thrown dh leaflet p m :
  (initMap dh leaflet p m).2 = None \/ (initMap dh leaflet p m).2 = Some "TypeError".
Proof.
  unfold initMap, toFixed.
  destruct leaflet; [now left | |];
    destruct (lat p), (lng p); cbn; auto.
Qed.

(** In a session over printable records the detail view cannot fail on
    the data.  Whatever was loaded and clicked before, provided no property
    of a loaded record is an object with an own [toString] property (or an
    array holding one), and whatever [data-id] is clicked, a call of
    [showMailDetail] throws nothing when Leaflet does not throw, and it
    then either opens the modal or, when no item has that id, leaves it
    untouched; when Leaflet throws, the only thing the call can throw is
    the [TypeError] of the placeholder's [toFixed]. *)
Theorem showMailDetail_returns_in_sessions :
  forall (h : Host) (dh : DetailHost) (savedKey : string) (w : World)
         (actions : list Action) (itemId : string) (m : Modal),
    Forall printable_action actions ->
    let st := run h actions (new_MailApp savedKey w) in
    let opened := showMailDetail h dh MapReady itemId st m in
    opened.2 = None /\
    (modal_shown opened.1 = true \/ opened.1 = m) /\
    (forall leaflet,
        (showMailDetail h dh leaflet itemId st m).2 = None \/
        (showMailDetail h dh leaflet itemId st m).2 = Some "TypeError").
Proof.
  intros h dh savedKey w actions itemId m Hactions st opened.
  pose proof (run_keeps_store_invariant h actions _
                (new_MailApp_store_invariant savedKey w)) as (_ & _ & _ & _ & Hraw).
  pose proof (run_shows h actions (new_MailApp savedKey w) Hactions
                ltac:(constructor)) as Hshows.
  fold st in Hraw, Hshows.
  destruct (List.find (id_is itemId) (allMailItems st)) as [item|] eqn:Hfind.
  - assert (Hitem : nullish (originalData item) = false /\ shows_in_detail item).
    { apply List.find_some in Hfind as [Hin _].
      rewrite Forall_forall in Hraw, Hshows.
      split; [apply Hraw | apply Hshows]; now apply list_elem_of_In. }
    destruct Hitem as [Hitem Hitem'].
    split; [|split].
    + subst opened.
      destruct (showMailDetail_found h dh MapReady itemId st m item Hfind Hitem Hitem')
        as (location & _ & ->).
      cbv zeta. destruct location; reflexivity.
    + left. subst opened.
      destruct (showMailDetail_found h dh MapReady itemId st m item Hfind Hitem Hitem')
        as (location & _ & ->).
      cbv zeta. destruct location; reflexivity.
    + intros leaflet.
      destruct (showMailDetail_found h dh leaflet itemId st m item Hfind Hitem Hitem')
        as (location & _ & ->).
      cbv zeta. destruct location as [p|]; [|now left].
      match goal with
      | |- context [initMap ?dh ?l ?p ?m] =>
          pose proof (initMap_thrown dh l p m) as Hthrown;
          destruct (initMap dh l p m) as [m2 [e|]]
      end; cbn [snd] in *; [|now left].
      destruct Hthrown as [Hn | Hs]; [discriminate Hn | now right].
  - subst opened. unfold showMailDetail. rewrite Hfind.
    split; [reflexivity|]. split; [now right|]. intros leaflet. now left.
Qed.
Lemma showMailDetail_returns_in_sessions_witness :
  let st := run sample_host
              [Refresh (ok_json (VArr [])) (ok_json (VArr []))
                 (ok_json (VArr [raw_package "p1" 1000 (<["weight" := VObj ∅]> ∅)]));
               View (CategoryClick "packages")]
              (new_MailApp "key" world0) in
  (showMailDetail sample_host sample_detail_host MapReady "p1" st closed_modal).2 = None /\
  modal_shown
    (showMailDetail sample_host sample_detail_host MapReady "p1" st closed_modal).1 = true.
Proof.
  cbv zeta.
  destruct (showMailDetail_returns_in_sessions sample_host sample_detail_host "key"
              world0
              [Refresh (ok_json (VArr [])) (ok_json (VArr []))
                 (ok_json (VArr [raw_package "p1" 1000 (<["weight" := VObj ∅]> ∅)]));
               View (CategoryClick "packages")]
              "p1" closed_modal) as (Hquiet & [Hshown | Hsame] & _).
  - constructor; [|constructor; [exact I | constructor]].
    unfold printable_action, printable_payload, ok_json. rewrite !unwrap_array.
    split; [constructor|]. split; [constructor|].
    constructor; [|constructor].
    apply printable_record_object. vm_compute. reflexivity.
  - split; [exact Hquiet | exact Hshown].
  - split; [exact Hquiet|]. vm_compute in Hsame. discriminate Hsame.
Defined.

(** When Leaflet throws, the placeholder decides.  For an item with
    printable values and a location whose two coordinates are numbers, the
    call writes the placeholder line and opens the modal; when a coordinate
    is not a number (a string, or the [undefined] of a partial tracking
    point) the [catch] block throws a [TypeError] itself: the call is
    abandoned with title and content already replaced and the map section
    displayed, but the modal is left as hidden or shown as it was. *)
Theorem showMailDetail_when_leaflet_throws :
  forall (h : Host) (dh : DetailHost) (leaflet : Leaflet) (itemId : string)
         (st : MailApp) (m : Modal) (item : Item) (p : LocationPoint),
    List.find (id_is itemId) (allMailItems st) = Some item ->
    nullish (originalData item) = false ->
    shows_in_detail item ->
    extractLocationData item = Return (Some p) ->
    leaflet <> MapReady ->
    let opened := showMailDetail h dh leaflet itemId st m in
    modalTitle opened.1 = shown_text h (subject item) /\
    mapSection_shown opened.1 = true /\
    (is_number (lat p) && is_number (lng p) = true ->
     opened.2 = None /\ modal_shown opened.1 = true /\
     exists line, map_placeholder opened.1 = Some line) /\
    (is_number (lat p) && is_number (lng p) = false ->
     opened.2 = Some "TypeError" /\ modal_shown opened.1 = modal_shown m /\
     map_placeholder opened.1 = None).
Proof.
  intros h dh leaflet itemId st m item p Hfind Hraw Hshows Hloc Hthrows opened.
  destruct (showMailDetail_found h dh leaflet itemId st m item Hfind Hraw Hshows)
    as (location & Hloc' & Hshow).
  rewrite Hloc in Hloc'. injection Hloc' as <-.
  subst opened. rewrite Hshow. cbv zeta. clear Hshow.
  unfold initMap, toFixed.
  destruct leaflet; [now destruct Hthrows | |];
    destruct (lat p) eqn:Elat, (lng p) eqn:Elng;
    cbn; repeat split; intros; try discriminate; eauto.
Qed.

Lemma showMailDetail_when_leaflet_throws_witness :
  (showMailDetail sample_host sample_detail_host MapThrewBefore "p3"
     loaded_partial_point closed_modal).2 = Some "TypeError" /\
  modal_shown
    (showMailDetail sample_host sample_detail_host MapThrewBefore "p3"
       loaded_partial_point closed_modal).1 = false.
Proof.
  destruct (showMailDetail_when_leaflet_throws sample_host sample_detail_host
              MapThrewBefore "p3" loaded_partial_point closed_modal
              (package_item "p3" 1000
                 (<["tracking_location" := VObj (<["lat" := num 5]> ∅)]> ∅))
              {| lat := num 5; lng := VUndefined; label := VStr "Tracking Location" |})
    as (_ & _ & _ & Hbad).
  - vm_compute. reflexivity.
  - reflexivity.
  - check_shows.
  - vm_compute. reflexivity.
  - discriminate.
  - destruct (Hbad eq_refl) as (Hthrown & Hshown & _). split; [exact Hthrown|].
    rewrite Hshown. reflexivity.
Defined.




Lemma detail_step_lifecycle h dh st e m :
  (modal_shown m = true \/ currentMap m = None) ->
  (detail_step h dh st e m).2 = None ->
  modal_shown (detail_step h dh st e m).1 = true \/
  currentMap (detail_step h dh st e m).1 = None.
Proof.
  intros Hinv Hquiet. destruct e as [itemId leaflet|]; cbn [detail_step] in *.
  - revert Hquiet. unfold showMailDetail.
    destruct (List.find (id_is itemId) (allMailItems st)) as [item|]; [|auto].
    destruct (textContent_of h (subject item)) as [title|?]; [|discriminate].
    destruct (negb (printable (date item))); [discriminate|].
    destruct (toString h (from item ||| VStr "")) as [sender|?]; [|discriminate].
    destruct (extractDetails item) as [details|?]; [|discriminate].
    destruct (grid_cells h details) as [cells|?]; [|discriminate].
    destruct (textContent_of h _) as [content|?]; [|discriminate].
    destruct (extractLocationData item) as [[p|]|?]; [| |discriminate].
    + destruct (initMap dh leaflet p _) as [m2 [?|]]; [discriminate|]. now left.
    + now left.
  - now right.
Qed.

(** The map lives only under an open modal.  Over any sequence of clicks
    on list elements and closings in which nothing is thrown, starting
    from the hidden modal of the page, a hidden modal never holds a map;
    and a closing at the end leaves the modal hidden and without a map
    whatever happened before, thrown or not. *)
Theorem detail_map_lifecycle :
  forall (h : Host) (dh : DetailHost) (st : MailApp) (events : list DetailEvent),
    ((detail_run h dh st events closed_modal).2 = [] ->
     modal_shown (detail_run h dh st events closed_modal).1 = true \/
     currentMap (detail_run h dh st events closed_modal).1 = None) /\
    modal_shown (detail_run h dh st (events ++ [CloseModal]) closed_modal).1 = false /\
    currentMap (detail_run h dh st (events ++ [CloseModal]) closed_modal).1 = None.
Proof.
  intros h dh st events.
  assert (Hinv0 : modal_shown closed_modal = true \/ currentMap closed_modal = None)
    by now right.
  revert Hinv0. generalize closed_modal.
  induction events as [|e rest IH]; intros m Hinv.
  - cbn. auto.
  - cbn [detail_run app].
    pose proof (detail_step_lifecycle h dh st e m Hinv) as Hstep.
    destruct (detail_step h dh st e m) as [m1 thrown].
    cbn [fst snd] in Hstep.
    assert (Hclose : modal_shown (detail_run h dh st (rest ++ [CloseModal]) m1).1 = false /\
                     currentMap (detail_run h dh st (rest ++ [CloseModal]) m1).1 = None).
    { clear. revert m1. induction rest as [|e' rest' IH']; intros m1.
      - cbn. auto.
      - cbn [detail_run app]. destruct (detail_step h dh st e' m1) as [m2 t2].
        specialize (IH' m2).
        destruct (detail_run h dh st (rest' ++ [CloseModal]) m2). exact IH'. }
    destruct thrown as [t|].
    + destruct (detail_run h dh st rest m1) as [m2 later] eqn:Er.
      destruct (detail_run h dh st (rest ++ [CloseModal]) m1) as [m3 later'].
      cbn [fst snd] in *. split; [discriminate | exact Hclose].
    + destruct (IH m1 (Hstep eq_refl)) as [IHquiet _].
      destruct (detail_run h dh st rest m1) as [m2 later] eqn:Er.
      destruct (detail_run h dh st (rest ++ [CloseModal]) m1) as [m3 later'].
      cbn [fst snd] in *. split; [exact IHquiet | exact Hclose].
Qed.

Lemma detail_map_lifecycle_witness :
  currentMap
    (detail_run sample_host sample_detail_host loaded_partial_point
       [MailItemClick "p3" MapReady; CloseModal] closed_modal).1 = None.
Proof.
  destruct (proj1 (detail_map_lifecycle sample_host sample_detail_host
                     loaded_partial_point [MailItemClick "p3" MapReady; CloseModal]))
    as [Hshown | Hmap].
  - vm_compute. reflexivity.
  - vm_compute in Hshown. discriminate Hshown.
  - exact Hmap.
Defined.

(** ** Narrowing *)

Lemma filter_sublist {A} (p : A -> bool) (l : list A) : sublist (List.filter p l) l.
Proof.
  induction l as [|x l IH]; [constructor|]. cbn [List.filter].
  destruct (p x); [now apply sublist_skip | now apply sublist_cons].
Qed.

Lemma map_sublist {A B} (f : A -> B) (l1 l2 : list A) :
  sublist l1 l2 -> sublist (map f l1) (map f l2).
Proof. induction 1; cbn [map]; now constructor. Qed.

Lemma filterMail_elements h category st :
  map rendered_from (elements (filterMail h category st))
  = js_sort h (spec_base st category).
Proof.
  unfold filterMail, displayMail, spec_base.
  cbn [currentFilter set_activeCategory set_currentFilter].
  repeat match goal with
         | |- context [String.eqb ?a ?b] => destruct (String.eqb a b)
         end;
    apply show_items_visible.
Qed.

(** A search after a click on a category of the page only narrows: what
    it shows is a subsequence, in the same order, of what the click alone
    shows; the elements of the list, hidden or not, their texts and the
    store are those the click left.  This for a base sequence of items
    with printable values and ids that are safe in an attribute: the click
    then renders the list anew, with every element on display.  (A click
    whose rendering throws leaves the old list, and a search can then
    bring back what an earlier search had hidden.) *)
Theorem search_after_filter_narrows :
  forall (h : Host) (category query : string) (st : MailApp),
    In category categories ->
    Forall (fun it => renders h it = true) (spec_base st category) ->
    let clicked := filterMail h category st in
    let shown := handle_all h [CategoryClick category; SearchInput query] st in
    sublist (visible shown) (visible clicked) /\
    map rendered_from (elements shown) = map rendered_from (elements clicked) /\
    map textContent (elements shown) = map textContent (elements clicked) /\
    mailData shown = mailData clicked /\
    allMailItems shown = allMailItems clicked.
Proof.
  intros h category query st _ _ clicked shown. subst shown clicked.
  cbn [handle_all foldl handle]. split.
  - rewrite searchMail_visible_eq.
    change (elements (set_searchBox query (filterMail h category st)))
      with (elements (filterMail h category st)).
    rewrite filterMail_visible_eq, <- filterMail_elements.
    apply map_sublist, filter_sublist.
  - set (clicked := filterMail h category st).
    unfold searchMail, elements. cbn [mailList set_searchBox].
    destruct (mailList clicked) as [ | | msg | | els] eqn:E;
      cbn [mailList mailData allMailItems set_mailList set_searchBox];
      rewrite ?E; repeat split; try reflexivity;
      rewrite map_map; reflexivity.
Qed.

Lemma search_after_filter_narrows_witness :
  let clicked := filterMail sample_host "unread" loaded_two_mails in
  let shown := handle_all sample_host [CategoryClick "unread"; SearchInput "bet"]
                 loaded_two_mails in
  visible shown = [mail_item "b" "Bob" "beta" 2000] /\
  sublist (visible shown) (visible clicked).
Proof.
  cbv zeta. split; [vm_compute; reflexivity|].
  apply (search_after_filter_narrows sample_host "unread" "bet" loaded_two_mails).
  - cbn. auto 10.
  - vm_compute. repeat constructor.
Defined.
